(** * Blog API (Midterm/server.js): a shallow embedding and its properties

    The service keeps one collection of blog posts in a document store and
    exposes six request handlers: create, list, like, comment, search and
    stats.  This development embeds the handlers of [server.js] as
    functions over an explicit collection, together with the parts of
    JavaScript, Mongoose and the store's query language that the handlers
    rely on, and proves the properties stated for them.

    Conventions of the embedding:
    - text is a [string] of 7-bit characters; case folding is ASCII;
    - a JavaScript number is a double.  The handlers meet whole numbers
      only, so a number is the integer it holds, rounded as a double
      rounds it; the infinities are written [Js.infinity] and
      [- Js.infinity], and [NaN] is [None] of an [option];
    - the collection is the list of its documents in insertion order; a
      stored id is an ObjectId, an id in a request is the text the client
      sent, which Mongoose casts;
    - request bodies and query parameters carry text (whole numbers for
      [likes], booleans for [published], times for dates) where the
      schema expects it;
    - the store is reachable: the only rejections of the store that appear
      are those that depend on the request (see [Engine]). *)

From Stdlib Require Import ZArith QArith List String Ascii Bool Lia.
From Stdlib Require Import Sorting.Sorted Sorting.Permutation Eqdep_dec.
Import ListNotations.

Local Open Scope string_scope.
Local Open Scope list_scope.
Local Open Scope Z_scope.

(** ** JavaScript primitives used by the handlers *)

Module Js.

Definition code (c : ascii) : Z := Z.of_N (N_of_ascii c).

(** White space and line terminators, as [String.prototype.trim] and
    [parseInt] strip them (tab, line feed, vertical tab, form feed,
    carriage return, space). *)
Definition is_white (c : ascii) : bool :=
  let n := code c in ((9 <=? n) && (n <=? 13)) || (n =? 32).

Fixpoint trim_start (s : string) : string :=
  match s with
  | String c s' => if is_white c then trim_start s' else s
  | EmptyString => EmptyString
  end.

Definition rev_string (s : string) : string :=
  string_of_list_ascii (rev (list_ascii_of_string s)).

Definition trim_end (s : string) : string :=
  rev_string (trim_start (rev_string s)).

(** [String.prototype.trim] *)
Definition trim (s : string) : string := trim_end (trim_start s).

(** Truthiness of a string: every string but the empty one. *)
Definition truthy (s : string) : bool :=
  match s with EmptyString => false | _ => true end.

(** *** Numbers

    A double holds every integer up to 2^53 in absolute value; a larger
    one is rounded to the nearest integer with 53 significant bits, a tie
    going to the even one, and what rounds to 2^1024 or beyond is an
    infinity. *)

Definition infinity : Z := 2 ^ 1024.

(** Rounding to a multiple of 2^s, to nearest, ties to even. *)
Definition round_at (s a : Z) : Z :=
  let q := a / 2 ^ s in
  let r := a mod 2 ^ s in
  let h := 2 ^ (s - 1) in
  (if r <? h then q
   else if h <? r then q + 1
   else if Z.even q then q else q + 1) * 2 ^ s.

(** Rounding of a magnitude. *)
Definition round_mag (a : Z) : Z :=
  if a <? 2 ^ 53 then a
  else Z.min infinity (round_at (Z.log2 a - 52) a).

(** The double nearest to an integer. *)
Definition to_double (z : Z) : Z := Z.sgn z * round_mag (Z.abs z).

Definition is_finite (z : Z) : bool := Z.abs z <? infinity.

(** The integers that doubles hold exactly, all of them up to here. *)
Definition exact (z : Z) : bool := Z.abs z <=? 2 ^ 53.

(** A number: an integer that is a double (or an infinity). *)
Record number : Type := Number {
  value : Z;
  is_double : to_double value = value
}.

Definition zero : number := Number 0 eq_refl.

(** The number nearest to an integer; rounding twice is rounding once
    (see [to_double_idem]), so the second case does not arise. *)
Definition num (z : Z) : number :=
  match Z.eq_dec (to_double (to_double z)) (to_double z) with
  | left H => Number (to_double z) H
  | right _ => zero
  end.

(** [x + y] for a number [x] and a finite integer [y]: an infinity stays
    what it is, a finite sum is rounded. *)
Definition add (x : number) (y : Z) : number :=
  if is_finite (value x) then num (value x + y) else x.

(** Value of a character as a digit of the given radix. *)
Definition digit_value (radix : Z) (c : ascii) : option Z :=
  let n := code c in
  let v :=
    if (48 <=? n) && (n <=? 57) then Some (n - 48)
    else if (97 <=? n) && (n <=? 122) then Some (n - 87)
    else if (65 <=? n) && (n <=? 90) then Some (n - 55)
    else None in
  match v with
  | Some d => if d <? radix then Some d else None
  | None => None
  end.

(** The longest prefix of digits, read in the radix; [acc] is [None]
    until a first digit has been read. *)
Fixpoint parse_digits (radix : Z) (acc : option Z) (s : string) : option Z :=
  match s with
  | EmptyString => acc
  | String c s' =>
      match digit_value radix c with
      | Some d =>
          parse_digits radix
            (Some (match acc with Some a => a * radix + d | None => d end)) s'
      | None => acc
      end
  end.

(** [parseInt(s)] with no radix argument: leading white space is
    skipped, then an optional sign, then an optional [0x]/[0X] prefix,
    then the longest run of digits, and the integer read is returned as
    a number; no digit gives [NaN] ([None]). *)
Definition parseInt (input : string) : option Z :=
  let s := trim_start input in
  let '(sign, s1) :=
    match s with
    | String "-"%char r => (-1, r)
    | String "+"%char r => (1, r)
    | _ => (1, s)
    end in
  let '(radix, s2) :=
    match s1 with
    | String "0"%char (String x r) =>
        if orb (Ascii.eqb x "x") (Ascii.eqb x "X") then (16, r) else (10, s1)
    | _ => (10, s1)
    end in
  option_map (fun m => to_double (sign * m)) (parse_digits radix None s2).

(** The double nearest to the quotient [a / b] of two positive integers:
    first the power of two at or below the quotient, then the quotient
    rounded to 53 significant bits, ties to even. *)
Definition floor_log2_ratio (a b : Z) : Z :=
  let d := Z.log2 a - Z.log2 b in
  if (if 0 <=? d then b * 2 ^ d <=? a else b <=? a * 2 ^ (- d))
  then d else d - 1.

Definition round_ratio_mag (a b : Z) : Q :=
  let e := floor_log2_ratio a b - 52 in
  let n := if 0 <=? e then a else a * 2 ^ (- e) in
  let d := if 0 <=? e then b * 2 ^ e else b in
  let q := n / d in
  let r := n mod d in
  let m := if 2 * r <? d then q
           else if d <? 2 * r then q + 1
           else if Z.even q then q else q + 1 in
  if 0 <=? e then inject_Z (m * 2 ^ e) else Qmake m (Z.to_pos (2 ^ (- e))).

(** The double nearest to [a / b], for [b] positive. *)
Definition round_ratio (a b : Z) : Q :=
  if a =? 0 then 0%Q
  else if 0 <? a then round_ratio_mag a b
  else Qopp (round_ratio_mag (- a) b).

(** The integers of 64 bits that stay so when negated. *)
Definition is_long (z : Z) : bool := Z.abs z <? 2 ^ 63.

(** The times a [Date] can hold, in milliseconds. *)
Definition valid_date (t : Z) : bool := Z.abs t <=? 8640000000000000.

(** ASCII case folding, as the [i] option of a regular expression
    applies it. *)
Definition to_lower (c : ascii) : ascii :=
  let n := code c in
  if (65 <=? n) && (n <=? 90) then ascii_of_N (Z.to_N (n + 32)) else c.

Definition eqb_ci (a b : ascii) : bool := Ascii.eqb (to_lower a) (to_lower b).

End Js.

Coercion Js.value : Js.number >-> Z.


(** ** The store's regular expressions

    The search handler hands the query text to the store as a regular
    expression with option [i].  The fragment modelled here is the one in
    which a pattern is a sequence of literal characters and dots; every
    other pattern is left to the engine (see [Engine] below). *)

Module Regex.

Inductive atom : Type :=
| Lit (c : ascii)   (* an ordinary character, matched up to case *)
| Dot.              (* any character but a line feed *)

(** Characters with a special meaning in a pattern. *)
Definition meta_chars : list ascii :=
  list_ascii_of_string "\^$.|?*+()[]{}".

Definition is_meta (c : ascii) : bool := existsb (Ascii.eqb c) meta_chars.

Fixpoint parse (q : string) : option (list atom) :=
  match q with
  | EmptyString => Some []
  | String c q' =>
      let a :=
        if Ascii.eqb c "." then Some Dot
        else if is_meta c then None
        else Some (Lit c) in
      match a, parse q' with
      | Some a, Some p => Some (a :: p)
      | _, _ => None
      end
  end.

Definition atom_matches (a : atom) (c : ascii) : bool :=
  match a with
  | Lit x => Js.eqb_ci x c
  | Dot => negb (Js.code c =? 10)
  end.

(** The pattern matches a prefix of the subject. *)
Fixpoint match_here (p : list atom) (s : string) : bool :=
  match p, s with
  | [], _ => true
  | a :: p', String c s' => atom_matches a c && match_here p' s'
  | _ :: _, EmptyString => false
  end.

(** The pattern matches somewhere in the subject (it is not anchored). *)
Fixpoint search (p : list atom) (s : string) : bool :=
  match_here p s ||
  match s with
  | String _ s' => search p s'
  | EmptyString => false
  end.

End Regex.

(** ** Data model: [postSchema] *)

Definition ObjectId := N.
Definition Date := Z.

(** An element of [comments]: [{ text: String, user: String, date }]. *)
Record Comment : Type := {
  text : option string;
  user : option string;
  date : Date
}.

(** A stored document of the [Post] model. *)
Record Post : Type := {
  _id : ObjectId;
  title : string;
  content : string;
  author : string;
  tags : list string;
  likes : Js.number;
  comments : list Comment;
  published : bool;
  createdAt : Date
}.

Definition Collection := list Post.

(** A comment as a client writes it; [date] is normally left out. *)
Record CommentInput : Type := {
  in_text : option string;
  in_user : option string;
  in_date : option Date
}.

(** The JSON body of a create request: every path of the schema may be
    given or left out, [_id] and [createdAt] included. *)
Record PostBody : Type := {
  body_id : option string;
  body_title : option string;
  body_content : option string;
  body_author : option string;
  body_tags : option (list string);
  body_likes : option Z;
  body_comments : option (list CommentInput);
  body_published : option bool;
  body_createdAt : option Date
}.

(** A document as [new Post(req.body)] builds it, before validation; a
    path whose value could not be cast holds [None]. *)
Record Document : Type := {
  doc_id : option ObjectId;
  doc_title : option string;
  doc_content : option string;
  doc_author : option string;
  doc_tags : list string;
  doc_likes : Js.number;
  doc_comments : option (list Comment);
  doc_published : bool;
  doc_createdAt : option Date
}.

Inductive ValidatorKind : Type := required | maxlength | cast.

Inductive Error : Type :=
| ValidationError (failures : list (string * ValidatorKind))
| CastError (value : string)       (* a text that is no ObjectId *)
| DuplicateKey (id : ObjectId)     (* a second document with an [_id] *)
| TypeError_null_property          (* reading a property of [null] *)
| StoreError (message : string).

(** Results of calls that can throw. *)
Definition Exc (A : Type) : Type := (Error + A)%type.

Definition ret {A} (x : A) : Exc A := inr x.
Definition throw {A} (e : Error) : Exc A := inl e.
Definition bind {A B} (c : Exc A) (k : A -> Exc B) : Exc B :=
  match c with
  | inl e => inl e
  | inr x => k x
  end.

Notation "x <- c ;; k" := (bind c (fun x => k))
  (at level 61, c at next level, right associativity).

(** Largest key first. *)
Definition sorted_desc {A} (key : A -> Z) (l : list A) : Prop :=
  StronglySorted (fun a b => key b <= key a) l.

(** The filter object of a [find]: an absent field puts no constraint. *)
Record Filter : Type := {
  filter_tags : option string;
  filter_published : option bool
}.

(** What the source leaves to Mongoose and to the store. *)
Record Engine : Type := {
  (** the ObjectId that a text denotes, if it denotes one *)
  cast_ObjectId : string -> option ObjectId;
  (** the answer to a limit that is no integer of 64 bits ([NaN] is
      [None], an infinity or a larger number is itself):
      a rejection, or how many documents are let through *)
  limit_other : option Z -> Exc (option nat);
  (** how many of the documents found fill the first batch of an
      answer *)
  first_batch : list Post -> nat;
  (** the regular expressions outside the fragment of [Regex] *)
  regex_other : string -> Exc (string -> bool);
  (** the order that a sort gives to documents with equal keys *)
  tie_break : forall A : Type, list A -> A -> Z;
  (** [$sum] and [$avg] of numbers that do not add up exactly *)
  group_inexact : list Z -> option Z * option Q
}.

(** ** Mongoose: construction, validation, queries *)

Definition or_default {A} (o : option A) (d : A) : A :=
  match o with Some x => x | None => d end.

(** Casting of a comment to the sub-document schema: [date] defaults to
    [Date.now]. *)
Definition cast_comment (now : Date) (c : CommentInput) : Comment :=
  {| text := in_text c; user := in_user c; date := or_default (in_date c) now |}.

Definition comment_date_ok (c : CommentInput) : bool :=
  match in_date c with
  | Some t => Js.valid_date t
  | None => true
  end.

(** [new Post(body)]: casts, setters ([trim] on [title]) and defaults;
    [id] is the ObjectId generated when the body gives none. *)
Definition new_Post (engine : Engine) (id : ObjectId) (now : Date)
  (b : PostBody) : Document :=
  {| doc_id := match body_id b with
               | Some s => cast_ObjectId engine s
               | None => Some id
               end;
     doc_title := option_map Js.trim (body_title b);
     doc_content := body_content b;
     doc_author := body_author b;
     doc_tags := or_default (body_tags b) [];
     doc_likes := Js.num (or_default (body_likes b) 0);
     doc_comments :=
       (let cs := or_default (body_comments b) [] in
        if forallb comment_date_ok cs then Some (map (cast_comment now) cs)
        else None);
     doc_published := or_default (body_published b) false;
     doc_createdAt := match body_createdAt b with
                      | Some t => if Js.valid_date t then Some t else None
                      | None => Some now
                      end |}.

(** The [required] validator of a [String] path: the value must be there
    and must not be empty. *)
Definition check_required (path : string) (v : option string)
  : list (string * ValidatorKind) :=
  match v with
  | Some s => if Js.truthy s then [] else [(path, required)]
  | None => [(path, required)]
  end.

Definition check_maxlength (path : string) (n : nat) (v : option string)
  : list (string * ValidatorKind) :=
  match v with
  | Some s => if (n <? String.length s)%nat then [(path, maxlength)] else []
  | None => []
  end.

(** A value that could not be cast fails validation. *)
Definition check_cast {A} (path : string) (v : option A)
  : list (string * ValidatorKind) :=
  match v with
  | Some _ => []
  | None => [(path, cast)]
  end.

Definition validate (d : Document) : list (string * ValidatorKind) :=
  (check_cast "_id" (doc_id d) ++
   check_required "title" (doc_title d) ++
   check_maxlength "title" 100 (doc_title d) ++
   check_required "content" (doc_content d) ++
   check_required "author" (doc_author d) ++
   check_cast "comments" (doc_comments d) ++
   check_cast "createdAt" (doc_createdAt d))%list.

(** The document as stored; validation has made sure that the required
    fields and the cast values are there. *)
Definition to_Post (d : Document) : Post :=
  {| _id := or_default (doc_id d) 0%N;
     title := or_default (doc_title d) EmptyString;
     content := or_default (doc_content d) EmptyString;
     author := or_default (doc_author d) EmptyString;
     tags := doc_tags d;
     likes := doc_likes d;
     comments := or_default (doc_comments d) [];
     published := doc_published d;
     createdAt := or_default (doc_createdAt d) 0 |}.

Definition has_id (id : ObjectId) (p : Post) : bool := N.eqb (_id p) id.

(** [post.save()] of a new document: validation, then insertion at the
    end of the collection, which the store refuses when a document has
    the [_id] already. *)
Definition save (d : Document) (db : Collection) : Exc (Collection * Post) :=
  match validate d with
  | [] =>
      let p := to_Post d in
      if existsb (has_id (_id p)) db then throw (DuplicateKey (_id p))
      else ret ((db ++ [p])%list, p)
  | failures => throw (ValidationError failures)
  end.

(** A fresh ObjectId: one that no document of the collection carries. *)
Definition new_ObjectId (db : Collection) : ObjectId :=
  N.succ (fold_right N.max 0%N (map _id db)).

Definition findById (id : ObjectId) (db : Collection) : option Post :=
  find (has_id id) db.

(** The update of the first document with the id, in place; the document
    as updated is returned ([new: true]), [null] ([None]) and no change
    when there is none. *)
Fixpoint findByIdAndUpdate (id : ObjectId) (update : Post -> Post)
  (db : Collection) : Collection * option Post :=
  match db with
  | [] => ([], None)
  | p :: rest =>
      if has_id id p then (update p :: rest, Some (update p))
      else let '(rest', r) := findByIdAndUpdate id update rest in
           (p :: rest', r)
  end.

(** [{ $inc: { likes: 1 } }] *)
Definition inc_likes (p : Post) : Post :=
  {| _id := _id p; title := title p; content := content p; author := author p;
     tags := tags p; likes := Js.add (likes p) 1; comments := comments p;
     published := published p; createdAt := createdAt p |}.

(** [{ $push: { comments: c } }] *)
Definition push_comment (c : Comment) (p : Post) : Post :=
  {| _id := _id p; title := title p; content := content p; author := author p;
     tags := tags p; likes := likes p; comments := (comments p ++ [c])%list;
     published := published p; createdAt := createdAt p |}.

(** Sorting on a numeric key, largest first; among documents with equal
    keys the larger [tie] comes first, and documents equal in both keep
    their order. *)
Definition below {A} (key tie : A -> Z) (x y : A) : bool :=
  (key x <? key y) || ((key x =? key y) && (tie x <? tie y)).

Fixpoint insert_desc {A} (key tie : A -> Z) (x : A) (l : list A) : list A :=
  match l with
  | [] => [x]
  | y :: l' =>
      if below key tie x y then y :: insert_desc key tie x l' else x :: l
  end.

Definition sort_desc {A} (key tie : A -> Z) (l : list A) : list A :=
  fold_right (insert_desc key tie) [] l.

(** The store's sort: descending on the key, ties as the engine has
    them. *)
Definition store_sort {A} (engine : Engine) (key : A -> Z) (l : list A)
  : list A :=
  sort_desc key (tie_break engine A l) l.

(** [{ tags: t }] holds of a document whose array [tags] has an element
    equal to [t]; [{ published: b }] is an equality. *)
Definition matches (f : Filter) (p : Post) : bool :=
  match filter_tags f with
  | Some t => existsb (String.eqb t) (tags p)
  | None => true
  end &&
  match filter_published f with
  | Some b => Bool.eqb (published p) b
  | None => true
  end.

(** How many documents an integer limit lets through ([None]: all of
    them): zero is no limit; a negative limit is sent as its absolute
    value with [singleBatch], so that only the first batch comes back,
    which holds 101 documents at most. *)
Definition limit_count (engine : Engine) (n : Z) (found : list Post)
  : option nat :=
  if n =? 0 then None
  else if 0 <? n then Some (Z.to_nat n)
  else Some (Nat.min (Nat.min (Z.to_nat (- n)) 101) (first_batch engine found)).

Definition cut {A} (c : option nat) (l : list A) : list A :=
  match c with
  | Some k => firstn k l
  | None => l
  end.

(** ** Responses *)

(** A matched document of the search pipeline: the post and the computed
    field. *)
Record SearchDoc : Type := {
  post : Post;
  engagement : Z
}.

(** The record of the [$group] stage of the stats pipeline; a total or
    a mean that is [NaN] is [None]. *)
Record Stats : Type := {
  totalPosts : Z;
  totalLikes : option Z;
  avgLikes : option Q;
  publishedCount : Z
}.

Inductive StatsData : Type :=
| EmptyObject
| StatsRecord (s : Stats).

(** The JSON bodies the handlers send. *)
Inductive Body : Type :=
| CreatedBody (data : Post) (message : string)
| ErrorBody (error : Error)                  (* success: false, error *)
| MessageBody (message : string)             (* success: false, message *)
| ListBody (count : nat) (data : list Post)
| LikesBody (likes : Z)                      (* data: { likes } *)
| CommentBody (data : option Comment)
| SearchBody (query : string) (count : nat) (data : list SearchDoc)
| StatsBody (data : StatsData).

Record Response : Type := {
  status : Z;
  body : Body
}.

(** [res.json(b)] *)
Definition json (b : Body) : Response := {| status := 200; body := b |}.

(** [res.status(n).json(b)] *)
Definition status_json (n : Z) (b : Body) : Response :=
  {| status := n; body := b |}.

(** Query parameters of the list request. *)
Record ListQuery : Type := {
  q_tag : option string;
  q_published : option string;
  q_limit : option string
}.

(** Reading a property of a value that may be [null]. *)
Definition property_of {A} (o : option A) : Exc A :=
  match o with
  | Some x => ret x
  | None => throw TypeError_null_property
  end.

(** ** The handlers *)

Section Handlers.

Variable engine : Engine.

(** [app.post('/api/posts')] *)
Definition create_post (now : Date) (b : PostBody) (db : Collection)
  : Collection * Response :=
  let post := new_Post engine (new_ObjectId db) now b in
  match save post db with
  | inr (db', saved) =>
      (db', status_json 201 (CreatedBody saved "Post created successfully"))
  | inl error => (db, status_json 400 (ErrorBody error))
  end.

(** The filter of [app.get('/api/posts')]:
    [if (tag) query.tags = tag;
     if (published !== undefined) query.published = published === 'true';] *)
Definition list_filter (q : ListQuery) : Filter :=
  let query := {| filter_tags := None; filter_published := None |} in
  let query :=
    match q_tag q with
    | Some tag =>
        if Js.truthy tag
        then {| filter_tags := Some tag;
                filter_published := filter_published query |}
        else query
    | None => query
    end in
  match q_published q with
  | Some p => {| filter_tags := filter_tags query;
                 filter_published := Some (String.eqb p "true") |}
  | None => query
  end.

(** [parseInt(limit)] with [limit = 10] when the parameter is undefined;
    [parseInt] reads the number 10 through its text. *)
Definition limit_param (q : ListQuery) : option Z :=
  match q_limit q with
  | Some limit => Js.parseInt limit
  | None => Js.parseInt "10"
  end.

(** The limit, when it is a finite number. *)
Definition finite_limit (limit : option Z) : option Z :=
  match limit with
  | Some n => if Js.is_finite n then Some n else None
  | None => None
  end.

Definition list_limit (q : ListQuery) : option Z :=
  finite_limit (limit_param q).

(** The limit, when it is a number that the store takes as a count: an
    integer of 64 bits. *)
Definition count_limit (limit : option Z) : option Z :=
  match limit with
  | Some n => if Js.is_long n then Some n else None
  | None => None
  end.

Definition store_limit (q : ListQuery) : option Z :=
  count_limit (limit_param q).

(** [Post.find(query).limit(n).sort({ createdAt: -1 })]: the documents
    that the filter selects are sorted, then cut by the limit, whatever
    the order of the calls. *)
Definition Post_find (query : Filter) (limit : option Z) (db : Collection)
  : Exc (list Post) :=
  let found := store_sort engine createdAt (filter (matches query) db) in
  c <- match count_limit limit with
       | Some n => ret (limit_count engine n found)
       | None => limit_other engine limit
       end ;;
  ret (cut c found).

(** [app.get('/api/posts')] *)
Definition list_posts (q : ListQuery) (db : Collection) : Response :=
  match Post_find (list_filter q) (limit_param q) db with
  | inr posts => json (ListBody (List.length posts) posts)
  | inl error => status_json 500 (ErrorBody error)
  end.

(** [Post.findByIdAndUpdate(req.params.id, update, { new: true })]: the
    id of the request is cast first, and a text that is no ObjectId
    throws. *)
Definition Post_findByIdAndUpdate (id : string) (update : Post -> Post)
  (db : Collection) : Exc (Collection * option Post) :=
  match cast_ObjectId engine id with
  | Some oid => ret (findByIdAndUpdate oid update db)
  | None => throw (CastError id)
  end.

(** [app.patch('/api/posts/:id/like')] *)
Definition like_post (id : string) (db : Collection)
  : Collection * Response :=
  match Post_findByIdAndUpdate id inc_likes db with
  | inr (db', post) =>
      match post with
      | None => (db', status_json 404 (MessageBody "Post not found"))
      | Some p => (db', json (LikesBody (likes p)))
      end
  | inl error => (db, status_json 500 (ErrorBody error))
  end.

(** [app.post('/api/posts/:id/comments')]: only [text] and [user] of
    the body are used. *)
Definition add_comment (now : Date) (id : string) (b : CommentInput)
  (db : Collection) : Collection * Response :=
  let pushed := {| in_text := in_text b; in_user := in_user b;
                   in_date := None |} in
  match Post_findByIdAndUpdate id (push_comment (cast_comment now pushed)) db
  with
  | inr (db', post) =>
      let data :=
        cs <- (p <- property_of post ;; ret (comments p)) ;;
        ret (nth_error cs (List.length cs - 1)%nat) in
      match data with
      | inr d => (db', json (CommentBody d))
      | inl error => (db', status_json 500 (ErrorBody error))
      end
  | inl error => (db, status_json 500 (ErrorBody error))
  end.

(** [{ $regex: q, $options: 'i' }] *)
Definition regex (q : string) : Exc (string -> bool) :=
  match Regex.parse q with
  | Some p => ret (Regex.search p)
  | None => regex_other engine q
  end.

(** [$addFields: { engagement: { $add: ["$likes", { $size: "$comments" }] } }] *)
Definition add_engagement (p : Post) : SearchDoc :=
  {| post := p;
     engagement :=
       Js.value (Js.add (likes p) (Z.of_nat (List.length (comments p)))) |}.

(** The search pipeline: [$match], [$addFields], [$sort], [$limit]. *)
Definition search_pipeline (q : string) (db : Collection)
  : Exc (list SearchDoc) :=
  re <- regex q ;;
  let matched := filter (fun p => re (title p) || re (content p)) db in
  let added := map add_engagement matched in
  let sorted := store_sort engine engagement added in
  ret (firstn 5 sorted).

(** [app.get('/api/posts/search')] *)
Definition search_posts (q : string) (db : Collection) : Response :=
  match search_pipeline q db with
  | inr results => json (SearchBody q (List.length results) results)
  | inl error => status_json 500 (ErrorBody error)
  end.

(** The accumulators of the [$group] stage: [$sum: 1], [$sum: "$likes"]
    and [$avg: "$likes"] (the likes met, their sum, and the sum of their
    magnitudes: when this is an integer that doubles hold exactly, so is
    every sum of some of the likes, in whatever order they are added)
    and [$sum: { $cond: ["$published", 1, 0] }]. *)
Record GroupAcc : Type := {
  acc_totalPosts : Z;
  acc_likes : list Z;
  acc_sum : Z;
  acc_magnitude : Z;
  acc_publishedCount : Z
}.

Definition group_init : GroupAcc :=
  {| acc_totalPosts := 0; acc_likes := []; acc_sum := 0; acc_magnitude := 0;
     acc_publishedCount := 0 |}.

Definition group_step (a : GroupAcc) (p : Post) : GroupAcc :=
  {| acc_totalPosts := acc_totalPosts a + 1;
     acc_likes := acc_likes a ++ [Js.value (likes p)];
     acc_sum := acc_sum a + likes p;
     acc_magnitude := acc_magnitude a + Z.abs (likes p);
     acc_publishedCount :=
       acc_publishedCount a + (if published p then 1 else 0) |}.

(** The record of the group: the counts are exact; the sum and the mean
    are the sum and the double nearest to the mean when the numbers add
    up exactly, and the store's otherwise. *)
Definition group_result (a : GroupAcc) : Stats :=
  let '(total, mean) :=
    if Js.exact (acc_magnitude a) && Js.exact (acc_totalPosts a)
    then (Some (acc_sum a),
          Some (Js.round_ratio (acc_sum a) (acc_totalPosts a)))
    else group_inexact engine (acc_likes a) in
  {| totalPosts := acc_totalPosts a;
     totalLikes := total;
     avgLikes := mean;
     publishedCount := acc_publishedCount a |}.

(** [$group] with [_id: null]: one record for all the documents, and no
    record when there is no document. *)
Definition stats_pipeline (db : Collection) : list Stats :=
  match db with
  | [] => []
  | _ :: _ => [group_result (fold_left group_step db group_init)]
  end.

(** [app.get('/api/posts/stats')]: [data: stats[0] || {}] *)
Definition get_stats (db : Collection) : Response :=
  json (StatsBody (match nth_error (stats_pipeline db) 0 with
                   | Some s => StatsRecord s
                   | None => EmptyObject
                   end)).

(** ** The service as a transition system *)

Inductive Request : Type :=
| Create (b : PostBody)
| List (q : ListQuery)
| Like (id : string)
| AddComment (id : string) (b : CommentInput)
| Search (q : string)
| GetStats.

(** One request, served at time [now]. *)
Definition handle (now : Date) (r : Request) (db : Collection)
  : Collection * Response :=
  match r with
  | Create b => create_post now b db
  | List q => (db, list_posts q db)
  | Like id => like_post id db
  | AddComment id b => add_comment now id b db
  | Search q => (db, search_posts q db)
  | GetStats => (db, get_stats db)
  end.

(** A sequence of requests, each with the time it is served at. *)
Fixpoint run (trace : list (Date * Request)) (db : Collection) : Collection :=
  match trace with
  | [] => db
  | (now, r) :: trace' => run trace' (fst (handle now r db))
  end.

End Handlers.

(** [postSchema.methods.publish], called on a document that [new Post]
    has built and that is not stored yet:
    [this.published = true; return this.save();] *)
Definition publish (d : Document) (db : Collection) : Exc (Collection * Post) :=
  let this :=
    {| doc_id := doc_id d; doc_title := doc_title d;
       doc_content := doc_content d; doc_author := doc_author d;
       doc_tags := doc_tags d; doc_likes := doc_likes d;
       doc_comments := doc_comments d; doc_published := true;
       doc_createdAt := doc_createdAt d |} in
  save this db.

(** ** Notions the properties are stated with *)

Fixpoint lower (s : string) : string :=
  match s with
  | EmptyString => EmptyString
  | String c s' => String (Js.to_lower c) (lower s')
  end.



Definition sum_likes (db : Collection) : Z :=
  fold_right Z.add 0 (map (fun p => Js.value (likes p)) db).

Definition count_published (db : Collection) : nat :=
  List.length (filter published db).

(** The likes of the collection add up exactly: their magnitudes add up
    to an integer that doubles hold exactly, so that every sum of some
    of them does, and so is the number of documents. *)
Definition magnitude (db : Collection) : Z :=
  fold_right Z.add 0 (map Z.abs (map (fun p => Js.value (likes p)) db)).

Definition exact_sums (db : Collection) : bool :=
  Js.exact (magnitude db) && Js.exact (Z.of_nat (List.length db)).




(** The text of 24 hexadecimal digits that denotes an ObjectId. *)
Fixpoint hex_value (acc : N) (s : string) : option N :=
  match s with
  | EmptyString => Some acc
  | String c s' =>
      match Js.digit_value 16 c with
      | Some d => hex_value (acc * 16 + Z.to_N d) s'
      | None => None
      end
  end.

Definition hex_ObjectId (s : string) : option ObjectId :=
  if (String.length s =? 24)%nat then hex_value 0 s else None.

(** An engine that takes the ids of 24 hexadecimal digits, rejects
    whatever else the source leaves to it, fills a batch with all the
    documents found and leaves ties in the order of insertion; the
    examples run on it. *)
Definition strict_engine : Engine :=
  {| cast_ObjectId := hex_ObjectId;
     limit_other := fun _ => throw (StoreError "limit");
     first_batch := fun found => List.length found;
     regex_other := fun _ => throw (StoreError "regular expression");
     tie_break := fun _ _ _ => 0;
     group_inexact := fun _ => (None, None) |}.

Definition id_1 : string := "000000000000000000000001".
Definition id_7 : string := "000000000000000000000007".

Definition example_post (id : ObjectId) (t c : string) (l : Z)
  (cs : list Comment) : Post :=
  {| _id := id; title := t; content := c; author := "ann"; tags := ["x"];
     likes := Js.num l; comments := cs; published := true; createdAt := 0 |}.

(** What a list request asks of a document: the given tag, when one is
    given and not empty, is among its tags, and its [published] flag is
    the parsed parameter, when one is given. *)
Definition satisfies (q : ListQuery) (p : Post) : Prop :=
  (forall t, q_tag q = Some t -> t <> EmptyString -> In t (tags p)) /\
  (forall s, q_published q = Some s -> published p = String.eqb s "true").






(** The decimal numeral with the given digits, most significant first,
    and the number it denotes. *)
Definition digit_char (d : Z) : ascii := ascii_of_N (Z.to_N (48 + d)).

Fixpoint numeral (ds : list Z) : string :=
  match ds with
  | [] => EmptyString
  | d :: ds' => String (digit_char d) (numeral ds')
  end.

Definition numeral_value (ds : list Z) : Z :=
  fold_left (fun a d => a * 10 + d) ds 0.

Definition is_digit (d : Z) : Prop := 0 <= d <= 9.

(** The documents of the collection that a list request asks for. *)
Definition selected (q : ListQuery) (db : Collection) : list Post :=
  filter (matches (list_filter q)) db.

(** The documents a list request selects, newest first. *)
Definition found (engine : Engine) (q : ListQuery) (db : Collection)
  : list Post :=
  store_sort engine createdAt (selected q db).

(** How many documents a cut lets through, out of [m]. *)
Definition limited (c : option nat) (m : nat) : nat :=
  match c with
  | Some k => Nat.min k m
  | None => m
  end.

(** The documents that pass a compiled pattern. *)
Definition matched (re : string -> bool) (db : Collection) : list Post :=
  filter (fun p => re (title p) || re (content p)) db.

Definition lower_atom (a : Regex.atom) : Regex.atom :=
  match a with
  | Regex.Lit c => Regex.Lit (Js.to_lower c)
  | Regex.Dot => Regex.Dot
  end.


Definition set_comments (cs : list Comment) (p : Post) : Post :=
  {| _id := _id p; title := title p; content := content p; author := author p;
     tags := tags p; likes := likes p; comments := cs;
     published := published p; createdAt := createdAt p |}.

(** Comment calls on one post, each with the time it is served at, and
    the entries they append. *)
Definition comment_calls (id : string) (calls : list (Date * CommentInput))
  : list (Date * Request) :=
  map (fun c => (fst c, AddComment id (snd c))) calls.

Definition entries (calls : list (Date * CommentInput)) : list Comment :=
  map (fun c => {| text := in_text (snd c); user := in_user (snd c);
                   date := fst c |}) calls.

(** What no request changes of a stored post, and what may only grow. *)
Definition post_grows (p p' : Post) : Prop :=
  _id p' = _id p /\ title p' = title p /\ content p' = content p /\
  author p' = author p /\ tags p' = tags p /\ published p' = published p /\
  createdAt p' = createdAt p /\
  likes p <= likes p' /\
  exists cs, comments p' = comments p ++ cs.

(** The later collection has the posts of the earlier one, in place and
    grown, followed by new ones. *)
Definition collection_grows (db db' : Collection) : Prop :=
  exists kept added, db' = kept ++ added /\ Forall2 post_grows db kept.

(** The text begins, or ends, with white space. *)
Definition starts_white (s : string) : bool :=
  match s with
  | String c _ => Js.is_white c
  | EmptyString => false
  end.

Definition ends_white (s : string) : bool := starts_white (Js.rev_string s).

(** What the schema asks of a stored post. *)
Definition schema_valid (p : Post) : Prop :=
  title p <> EmptyString /\ (String.length (title p) <= 100)%nat /\
  starts_white (title p) = false /\ ends_white (title p) = false /\
  content p <> EmptyString /\ author p <> EmptyString.

(** The text is white space only. *)
Definition all_white (s : string) : bool :=
  forallb Js.is_white (list_ascii_of_string s).

(** The text does not go on with a decimal digit, nor, after a lone
    digit 0, with [x] or [X] (which would make it a hexadecimal
    numeral). *)
Definition stops (ds : list Z) (rest : string) : Prop :=
  match rest with
  | EmptyString => True
  | String c _ =>
      Js.digit_value 10 c = None /\
      (ds = [0] -> Ascii.eqb c "x" || Ascii.eqb c "X" = false)
  end.

(** A sign as [parseInt] reads it, and its value. *)
Inductive Sign : Type := NoSign | Plus | Minus.

Definition sign_text (s : Sign) : string :=
  match s with NoSign => EmptyString | Plus => "+" | Minus => "-" end.

Definition sign_value (s : Sign) : Z :=
  match s with Minus => -1 | _ => 1 end.

(** * Properties *)

(** ** Numbers *)

Lemma pow2_pos (s : Z) : 0 <= s -> 0 < 2 ^ s.
Proof. intros. apply Z.pow_pos_nonneg; lia. Qed.

Lemma pow2_half (s : Z) : 1 <= s -> 2 ^ s = 2 * 2 ^ (s - 1).
Proof.
  intros. replace s with (Z.succ (s - 1)) at 1 by lia.
  rewrite Z.pow_succ_r by lia. reflexivity.
Qed.

Lemma round_at_cases (s a : Z) :
  Js.round_at s a = (a / 2 ^ s) * 2 ^ s \/
  Js.round_at s a = (a / 2 ^ s + 1) * 2 ^ s.
Proof.
  unfold Js.round_at.
  destruct (_ <? _); [now left|].
  destruct (_ <? _); [now right|].
  destruct (Z.even _); [now left | now right].
Qed.

Lemma round_at_multiple (s m : Z) :
  1 <= s -> Js.round_at s (m * 2 ^ s) = m * 2 ^ s.
Proof.
  intros Hs. unfold Js.round_at.
  pose proof (pow2_pos s ltac:(lia)) as P.
  pose proof (pow2_pos (s - 1) ltac:(lia)) as H.
  rewrite Z.div_mul, Z.mod_mul by lia.
  destruct (Z.ltb_spec 0 (2 ^ (s - 1))); [reflexivity | lia].
Qed.

Lemma round_at_mono (s a b : Z) :
  1 <= s -> a <= b -> Js.round_at s a <= Js.round_at s b.
Proof.
  intros Hs Hab.
  pose proof (pow2_pos s ltac:(lia)) as P.
  pose proof (pow2_pos (s - 1) ltac:(lia)) as H.
  pose proof (pow2_half s Hs) as E.
  assert (Q : a / 2 ^ s <= b / 2 ^ s) by (apply Z.div_le_mono; lia).
  destruct (Z.eq_dec (a / 2 ^ s) (b / 2 ^ s)) as [Eq|Ne].
  - assert (R : a mod 2 ^ s <= b mod 2 ^ s).
    { rewrite !Z.mod_eq by lia. rewrite Eq. lia. }
    unfold Js.round_at. rewrite Eq.
    apply Z.mul_le_mono_nonneg_r; [lia|].
    destruct (Z.ltb_spec (a mod 2 ^ s) (2 ^ (s - 1)));
      destruct (Z.ltb_spec (b mod 2 ^ s) (2 ^ (s - 1)));
      destruct (Z.ltb_spec (2 ^ (s - 1)) (a mod 2 ^ s));
      destruct (Z.ltb_spec (2 ^ (s - 1)) (b mod 2 ^ s));
      destruct (Z.even (b / 2 ^ s)); lia.
  - destruct (round_at_cases s a) as [-> | ->];
      destruct (round_at_cases s b) as [-> | ->]; nia.
Qed.

(** A magnitude of 2^53 or more lies in one binade. *)
Lemma binade (a : Z) :
  2 ^ 53 <= a ->
  let s := Z.log2 a - 52 in
  1 <= s /\ 2 ^ 52 * 2 ^ s <= a < 2 ^ 53 * 2 ^ s.
Proof.
  intros Ha s.
  assert (0 < a) by (pose proof (pow2_pos 53 ltac:(lia)); lia).
  assert (L : 53 <= Z.log2 a).
  { replace 53 with (Z.log2 (2 ^ 53)) by (rewrite Z.log2_pow2; lia).
    apply Z.log2_le_mono. exact Ha. }
  destruct (Z.log2_spec a H) as [Lo Hi].
  subst s. split; [lia|].
  rewrite <- !Z.pow_add_r by lia.
  replace (52 + (Z.log2 a - 52)) with (Z.log2 a) by lia.
  replace (53 + (Z.log2 a - 52)) with (Z.succ (Z.log2 a)) by lia.
  lia.
Qed.

Lemma binade_quotient (a s : Z) :
  1 <= s -> 2 ^ 52 * 2 ^ s <= a < 2 ^ 53 * 2 ^ s ->
  2 ^ 52 <= a / 2 ^ s < 2 ^ 53.
Proof.
  intros Hs [Lo Hi]. pose proof (pow2_pos s ltac:(lia)) as P. split.
  - apply Z.div_le_lower_bound; lia.
  - apply Z.div_lt_upper_bound; lia.
Qed.

Lemma log2_binade (a s : Z) :
  0 <= s -> 2 ^ 52 * 2 ^ s <= a < 2 ^ 53 * 2 ^ s -> Z.log2 a - 52 = s.
Proof.
  intros Hs [Lo Hi].
  rewrite <- !Z.pow_add_r in * by lia.
  assert (Z.log2 a = 52 + s).
  { apply Z.log2_unique; [lia|].
    replace (Z.succ (52 + s)) with (53 + s) by lia. lia. }
  lia.
Qed.

Lemma round_at_binade (a : Z) :
  2 ^ 53 <= a ->
  let s := Z.log2 a - 52 in
  2 ^ 52 * 2 ^ s <= Js.round_at s a <= 2 ^ 53 * 2 ^ s.
Proof.
  intros Ha s. destruct (binade a Ha) as [Hs B]. fold s in Hs, B.
  pose proof (binade_quotient a s Hs B) as Q.
  pose proof (pow2_pos s ltac:(lia)) as P.
  destruct (round_at_cases s a) as [-> | ->]; nia.
Qed.

Lemma round_mag_infinity : Js.round_mag Js.infinity = Js.infinity.
Proof. vm_compute. reflexivity. Qed.

Lemma round_mag_small (a : Z) : a < 2 ^ 53 -> Js.round_mag a = a.
Proof.
  intros H. unfold Js.round_mag.
  destruct (Z.ltb_spec a (2 ^ 53)); [reflexivity | lia].
Qed.

Lemma round_mag_big (a : Z) :
  2 ^ 53 <= a ->
  Js.round_mag a = Z.min Js.infinity (Js.round_at (Z.log2 a - 52) a).
Proof.
  intros H. unfold Js.round_mag.
  destruct (Z.ltb_spec a (2 ^ 53)); [lia | reflexivity].
Qed.

Lemma round_mag_idem (a : Z) : Js.round_mag (Js.round_mag a) = Js.round_mag a.
Proof.
  destruct (Z.lt_ge_cases a (2 ^ 53)) as [Sm|Bg].
  - now rewrite !(round_mag_small a Sm).
  - rewrite (round_mag_big a Bg).
    destruct (binade a Bg) as [Hs B].
    pose proof (round_at_binade a Bg) as RB. cbv zeta in RB.
    set (s := Z.log2 a - 52) in *.
    pose proof (pow2_pos s ltac:(lia)) as P.
    pose proof (binade_quotient a s Hs B) as Q.
    destruct (Z.min_spec Js.infinity (Js.round_at s a)) as [[_ ->] | [Lt ->]].
    + apply round_mag_infinity.
    + assert (Big : 2 ^ 53 <= Js.round_at s a).
      { assert (2 ^ 53 <= 2 ^ 52 * 2 ^ s); [|lia].
        rewrite (pow2_half s Hs).
        pose proof (pow2_pos (s - 1) ltac:(lia)).
        change (2 ^ 53) with (2 ^ 52 * 2). nia. }
      rewrite (round_mag_big _ Big).
      assert (M : exists m s', 1 <= s' /\ Js.round_at s a = m * 2 ^ s' /\
                               Z.log2 (Js.round_at s a) - 52 = s').
      { destruct (round_at_cases s a) as [E | E].
        - exists (a / 2 ^ s), s. repeat split; trivial.
          apply log2_binade; [lia|]. rewrite E. nia.
        - destruct (Z.eq_dec (a / 2 ^ s + 1) (2 ^ 53)) as [Top|NTop].
          + assert (E' : Js.round_at s a = 2 ^ 52 * 2 ^ (s + 1)).
            { rewrite E, Top. rewrite (Z.pow_add_r 2 s 1) by lia.
              change (2 ^ 53) with (2 ^ 52 * 2). change (2 ^ 1) with 2. lia. }
            exists (2 ^ 52), (s + 1). repeat split; [lia | exact E' |].
            apply log2_binade; [lia|]. rewrite E'.
            pose proof (pow2_pos (s + 1) ltac:(lia)).
            change (2 ^ 53) with (2 ^ 52 * 2). nia.
          + exists (a / 2 ^ s + 1), s. repeat split; trivial.
            apply log2_binade; [lia|]. rewrite E. nia. }
      destruct M as (m & s' & Hs' & E & L).
      rewrite L. rewrite E at 1. rewrite round_at_multiple by lia.
      rewrite <- E. lia.
Qed.

Lemma round_mag_nonneg (a : Z) : 0 <= a -> 0 <= Js.round_mag a.
Proof.
  intros H. unfold Js.round_mag.
  destruct (Z.ltb_spec a (2 ^ 53)); [exact H|].
  pose proof (round_at_binade a H0) as RB. cbv zeta in RB.
  pose proof (pow2_pos (Z.log2 a - 52)
                ltac:(destruct (binade a H0); lia)).
  assert (0 < Js.infinity) by reflexivity. lia.
Qed.

Lemma round_mag_le_infinity (a : Z) :
  a <= Js.infinity -> Js.round_mag a <= Js.infinity.
Proof.
  intros H. unfold Js.round_mag.
  destruct (Z.ltb_spec a (2 ^ 53)); [exact H | apply Z.le_min_l].
Qed.

Lemma round_mag_mono (a b : Z) :
  0 <= a -> a <= b -> Js.round_mag a <= Js.round_mag b.
Proof.
  intros H0 Hab. unfold Js.round_mag.
  destruct (Z.ltb_spec a (2 ^ 53)) as [Sa|Ba];
    destruct (Z.ltb_spec b (2 ^ 53)) as [Sb|Bb]; try lia.
  - pose proof (round_at_binade b Bb) as RB. cbv zeta in RB.
    destruct (binade b Bb) as [Hs _].
    pose proof (pow2_pos (Z.log2 b - 52) ltac:(lia)).
    assert (2 ^ 53 < Js.infinity) by reflexivity.
    apply Z.min_glb; [lia|].
    assert (2 ^ 53 <= 2 ^ 52 * 2 ^ (Z.log2 b - 52)); [|lia].
    rewrite (pow2_half _ Hs).
    pose proof (pow2_pos (Z.log2 b - 52 - 1) ltac:(lia)).
    change (2 ^ 53) with (2 ^ 52 * 2). nia.
  - apply Z.min_le_compat_l.
    destruct (binade a Ba) as [Hsa Bna]. destruct (binade b Bb) as [Hsb Bnb].
    assert (L : Z.log2 a <= Z.log2 b) by (apply Z.log2_le_mono; lia).
    destruct (Z.eq_dec (Z.log2 a) (Z.log2 b)) as [E|N].
    + rewrite E. apply round_at_mono; lia.
    + pose proof (round_at_binade a Ba) as RA.
      pose proof (round_at_binade b Bb) as RB. cbv zeta in RA, RB.
      assert (2 ^ 53 * 2 ^ (Z.log2 a - 52) <= 2 ^ 52 * 2 ^ (Z.log2 b - 52));
        [|lia].
      rewrite <- !Z.pow_add_r by lia.
      apply Z.pow_le_mono_r; lia.
Qed.

Lemma to_double_nonneg (z : Z) : 0 <= z -> Js.to_double z = Js.round_mag z.
Proof.
  intros H. unfold Js.to_double. rewrite Z.abs_eq by lia.
  destruct (Z.eq_dec z 0) as [->|N]; [reflexivity|].
  rewrite Z.sgn_pos by lia. lia.
Qed.

Lemma to_double_neg (z : Z) :
  z <= 0 -> Js.to_double z = - Js.round_mag (- z).
Proof.
  intros H. unfold Js.to_double. rewrite Z.abs_neq by lia.
  destruct (Z.eq_dec z 0) as [->|N]; [reflexivity|].
  rewrite Z.sgn_neg by lia. lia.
Qed.

(** Rounding leaves a double as it is. *)
Lemma to_double_idem (z : Z) : Js.to_double (Js.to_double z) = Js.to_double z.
Proof.
  destruct (Z.le_ge_cases 0 z) as [P|N].
  - rewrite (to_double_nonneg z P).
    rewrite to_double_nonneg by now apply round_mag_nonneg.
    apply round_mag_idem.
  - rewrite (to_double_neg z N).
    pose proof (round_mag_nonneg (- z) ltac:(lia)).
    rewrite to_double_neg by lia.
    now rewrite Z.opp_involutive, round_mag_idem.
Qed.

(** Rounding keeps the order. *)
Lemma to_double_mono (a b : Z) : a <= b -> Js.to_double a <= Js.to_double b.
Proof.
  intros Hab.
  destruct (Z.le_ge_cases 0 a) as [Pa|Na];
    destruct (Z.le_ge_cases 0 b) as [Pb|Nb].
  - rewrite !to_double_nonneg by lia. apply round_mag_mono; lia.
  - assert (a = 0) by lia. assert (b = 0) by lia. subst. lia.
  - rewrite (to_double_neg a), (to_double_nonneg b) by lia.
    pose proof (round_mag_nonneg (- a) ltac:(lia)).
    pose proof (round_mag_nonneg b ltac:(lia)). lia.
  - rewrite !to_double_neg by lia.
    pose proof (round_mag_mono (- b) (- a) ltac:(lia) ltac:(lia)). lia.
Qed.

(** Up to 2^53 in absolute value every integer is a double. *)
Lemma to_double_exact (z : Z) : Js.exact z = true -> Js.to_double z = z.
Proof.
  unfold Js.exact. intros H. apply Z.leb_le in H.
  assert (R : forall a, 0 <= a <= 2 ^ 53 -> Js.round_mag a = a).
  { intros a Ha. destruct (Z.eq_dec a (2 ^ 53)) as [->|N]; [reflexivity|].
    apply round_mag_small. lia. }
  destruct (Z.le_ge_cases 0 z).
  - rewrite to_double_nonneg, R; lia.
  - rewrite to_double_neg, R; lia.
Qed.

Lemma value_num (z : Z) : Js.value (Js.num z) = Js.to_double z.
Proof.
  unfold Js.num.
  destruct (Z.eq_dec _ _) as [H|N]; [reflexivity|].
  elim N. apply to_double_idem.
Qed.



Lemma value_add (x : Js.number) (y : Z) :
  Js.value (Js.add x y) =
  if Js.is_finite x then Js.to_double (x + y) else Js.value x.
Proof.
  unfold Js.add. destruct (Js.is_finite x); [apply value_num | reflexivity].
Qed.

(** Adding what is not negative never gives less. *)
Lemma add_not_less (x : Js.number) (y : Z) : 0 <= y -> x <= Js.add x y.
Proof.
  intros H. rewrite value_add. destruct (Js.is_finite x); [|lia].
  rewrite <- (Js.is_double x) at 1. apply to_double_mono. lia.
Qed.



Lemma exact_weaken (a b : Z) :
  Z.abs a <= Z.abs b -> Js.exact b = true -> Js.exact a = true.
Proof.
  unfold Js.exact. intros H E. apply Z.leb_le in E. apply Z.leb_le. lia.
Qed.

(** ** Reading a limit *)

Lemma is_digit_cases (d : Z) :
  is_digit d ->
  d = 0 \/ d = 1 \/ d = 2 \/ d = 3 \/ d = 4 \/
  d = 5 \/ d = 6 \/ d = 7 \/ d = 8 \/ d = 9.
Proof. unfold is_digit. lia. Qed.

Ltac each_digit H :=
  apply is_digit_cases in H;
  repeat (destruct H as [H | H]); subst.

Lemma digit_value_digit_char (d : Z) :
  is_digit d -> Js.digit_value 10 (digit_char d) = Some d.
Proof. intros H. each_digit H; reflexivity. Qed.

Lemma parse_digits_prefix (ds : list Z) (rest : string) (acc : option Z) :
  Forall is_digit ds ->
  match rest with
  | EmptyString => True
  | String c _ => Js.digit_value 10 c = None
  end ->
  Js.parse_digits 10 acc (numeral ds ++ rest) =
  match ds with
  | [] => acc
  | _ :: _ => Some (fold_left (fun a d => a * 10 + d) ds
                      (match acc with Some a => a | None => 0 end))
  end.
Proof.
  intros F R. revert acc.
  induction F as [|d ds Hd F IH]; intros acc.
  - simpl. destruct rest as [|c rest]; [reflexivity|]. simpl. now rewrite R.
  - cbn [numeral String.append Js.parse_digits].
    rewrite (digit_value_digit_char d Hd), IH.
    destruct ds as [|d' ds]; destruct acc; reflexivity.
Qed.

Lemma trim_start_white (ws s : string) :
  all_white ws = true -> Js.trim_start (ws ++ s) = Js.trim_start s.
Proof.
  unfold all_white. induction ws as [|c ws IH]; simpl; [reflexivity|].
  intros H. apply andb_prop in H. destruct H as [-> H]. now apply IH.
Qed.

Lemma parseInt_white (ws s : string) :
  all_white ws = true -> Js.parseInt (ws ++ s) = Js.parseInt s.
Proof.
  intros H. unfold Js.parseInt. now rewrite (trim_start_white ws s H).
Qed.

Lemma parseInt_signed (sgn : Sign) (d : Z) (ds : list Z) (rest : string) :
  Forall is_digit (d :: ds) -> stops (d :: ds) rest ->
  Js.parseInt (sign_text sgn ++ numeral (d :: ds) ++ rest)%string =
  option_map (fun m => Js.to_double (sign_value sgn * m))
             (Js.parse_digits 10 None (numeral (d :: ds) ++ rest)%string).
Proof.
  intros F S. inversion F as [|x l Hd F']; subst.
  destruct ds as [|d' ds].
  - destruct rest as [|c rest].
    + destruct sgn; each_digit Hd; reflexivity.
    + destruct S as [_ X].
      destruct sgn; each_digit Hd; try reflexivity;
        specialize (X eq_refl); unfold Js.parseInt; simpl;
          unfold Ascii.eqb in X |- *; simpl in X |- *; rewrite X; reflexivity.
  - inversion F' as [|x l Hd' _]; subst.
    destruct sgn; each_digit Hd; try reflexivity; each_digit Hd'; reflexivity.
Qed.

(** [parseInt] reads white space, a sign, decimal digits and a tail as
    the double nearest to the signed number that the digits denote. *)
Lemma parseInt_prefix (ws : string) (sgn : Sign) (ds : list Z) (rest : string) :
  all_white ws = true -> ds <> [] -> Forall is_digit ds -> stops ds rest ->
  Js.parseInt (ws ++ sign_text sgn ++ numeral ds ++ rest)%string =
  Some (Js.to_double (sign_value sgn * numeral_value ds)).
Proof.
  intros W N F S. rewrite (parseInt_white _ _ W).
  destruct ds as [|d ds]; [now elim N|].
  rewrite (parseInt_signed sgn d ds rest F S).
  assert (R : match rest with
              | EmptyString => True
              | String c _ => Js.digit_value 10 c = None
              end) by (destruct rest; [trivial | apply S]).
  rewrite (parse_digits_prefix (d :: ds) rest None F R). reflexivity.
Qed.

Lemma string_app_empty (s : string) : (s ++ EmptyString)%string = s.
Proof. induction s as [|c s IH]; simpl; [reflexivity | now rewrite IH]. Qed.

Lemma parseInt_numeral (ds : list Z) :
  ds <> [] -> Forall is_digit ds ->
  Js.parseInt (numeral ds) = Some (Js.to_double (numeral_value ds)).
Proof.
  intros N F.
  pose proof (parseInt_prefix EmptyString NoSign ds EmptyString
                eq_refl N F I) as P.
  cbn [sign_text String.append sign_value] in P.
  rewrite string_app_empty in P. rewrite P. f_equal. f_equal.
  now destruct (numeral_value ds).
Qed.

(** ** Sorting *)

Lemma In_firstn {A : Type} (x : A) (n : nat) (l : list A) :
  In x (firstn n l) -> In x l.
Proof.
  revert l; induction n as [|n IH]; intros [|y l]; simpl; try tauto.
  intros [->|H]; [now left | right; now apply IH].
Qed.

Lemma sorted_desc_firstn {A} (key : A -> Z) (n : nat) (l : list A) :
  sorted_desc key l -> sorted_desc key (firstn n l).
Proof.
  unfold sorted_desc. intros Hs. revert n.
  induction Hs as [|x l Hs IH Hx]; intros [|n]; simpl; try constructor.
  - apply IH.
  - rewrite Forall_forall in *. intros z Hz.
    apply Hx. now apply In_firstn with n.
Qed.



Lemma sorted_desc_app {A} (key : A -> Z) (l1 l2 : list A) :
  sorted_desc key (l1 ++ l2) ->
  forall a b, In a l1 -> In b l2 -> key b <= key a.
Proof.
  unfold sorted_desc. induction l1 as [|x l1 IH]; simpl; intros S a b Ha Hb.
  - contradiction.
  - inversion S as [|y l Hs Hx]; subst. destruct Ha as [<-|Ha].
    + rewrite Forall_forall in Hx. apply Hx, in_or_app. now right.
    + now apply IH.
Qed.

(** What a cut of a sorted sequence leaves out has no larger key than
    what it keeps. *)
Lemma dropped_not_larger {A} (key : A -> Z) (n : nat) (l : list A) (b : A) :
  sorted_desc key l -> In b l -> ~ In b (firstn n l) ->
  forall a, In a (firstn n l) -> key b <= key a.
Proof.
  intros S Hb Hn a Ha.
  rewrite <- (firstn_skipn n l) in S, Hb.
  apply in_app_or in Hb. destruct Hb as [Hb|Hb]; [contradiction|].
  now apply (sorted_desc_app key _ _ S).
Qed.

Section Sorting.

Context {A : Type} (key tie : A -> Z).

Lemma insert_desc_perm (x : A) (l : list A) :
  Permutation (insert_desc key tie x l) (x :: l).
Proof.
  induction l as [|y l IH]; simpl.
  - apply Permutation_refl.
  - destruct (below key tie x y).
    + rewrite perm_swap. now apply perm_skip.
    + apply Permutation_refl.
Qed.

Lemma sort_desc_perm (l : list A) : Permutation (sort_desc key tie l) l.
Proof.
  induction l as [|x l IH]; simpl.
  - constructor.
  - etransitivity; [apply insert_desc_perm|]. now constructor.
Qed.

Lemma below_key (x y : A) :
  (below key tie x y = true -> key x <= key y) /\
  (below key tie x y = false -> key y <= key x).
Proof.
  unfold below.
  destruct (Z.ltb_spec (key x) (key y)); destruct (Z.eqb_spec (key x) (key y));
    simpl; split; intros; try discriminate; lia.
Qed.

Lemma insert_desc_sorted (x : A) (l : list A) :
  sorted_desc key l -> sorted_desc key (insert_desc key tie x l).
Proof.
  unfold sorted_desc.
  induction 1 as [|y l Hs IH Hy]; simpl.
  - repeat constructor.
  - destruct (below key tie x y) eqn:E.
    + apply below_key in E. constructor; [exact IH|].
      rewrite Forall_forall in *. intros z Hz.
      apply (Permutation_in _ (insert_desc_perm x l)) in Hz.
      destruct Hz as [<-|Hz]; [lia | now apply Hy].
    + apply below_key in E. constructor.
      * now constructor.
      * constructor; [exact E|].
        rewrite Forall_forall in *. intros z Hz.
        specialize (Hy z Hz). lia.
Qed.

Lemma sort_desc_sorted (l : list A) : sorted_desc key (sort_desc key tie l).
Proof.
  induction l as [|x l IH]; simpl.
  - constructor.
  - now apply insert_desc_sorted.
Qed.

End Sorting.

(** The store's sort arranges the documents it is given, largest key
    first, whatever it does with ties. *)
Lemma store_sort_perm {A} (engine : Engine) (key : A -> Z) (l : list A) :
  Permutation (store_sort engine key l) l.
Proof. apply sort_desc_perm. Qed.

Lemma store_sort_sorted {A} (engine : Engine) (key : A -> Z) (l : list A) :
  sorted_desc key (store_sort engine key l).
Proof. apply sort_desc_sorted. Qed.

Lemma store_sort_In {A} (engine : Engine) (key : A -> Z) (x : A) (l : list A) :
  In x (store_sort engine key l) <-> In x l.
Proof.
  split; apply Permutation_in;
    [apply store_sort_perm | apply Permutation_sym, store_sort_perm].
Qed.

Lemma store_sort_length {A} (engine : Engine) (key : A -> Z) (l : list A) :
  List.length (store_sort engine key l) = List.length l.
Proof. apply Permutation_length, store_sort_perm. Qed.


(** ** Patterns without special characters *)







(** ** Search *)

Section Search.

Variable engine : Engine.


Lemma search_pipeline_inl (q : string) (db : Collection) (e : Error) :
  search_pipeline engine q db = inl e -> regex engine q = inl e.
Proof.
  unfold search_pipeline, bind, ret.
  destruct (regex engine q) as [e'|re]; [congruence | discriminate].
Qed.

Lemma search_pipeline_compiled (q : string) (db : Collection)
  (re : string -> bool) :
  regex engine q = inr re ->
  search_pipeline engine q db =
    inr (firstn 5 (store_sort engine engagement
                     (map add_engagement (matched re db)))).
Proof.
  intros R. unfold search_pipeline, bind, ret. now rewrite R.
Qed.

Lemma search_posts_compiled (q : string) (db : Collection)
  (re : string -> bool) :
  regex engine q = inr re ->
  search_posts engine q db =
    let results :=
      firstn 5 (store_sort engine engagement
                  (map add_engagement (matched re db))) in
    json (SearchBody q (List.length results) results).
Proof.
  intros R. unfold search_posts.
  now rewrite (search_pipeline_compiled q db re R).
Qed.


Lemma search_results_length (re : string -> bool) (db : Collection) :
  List.length (firstn 5 (store_sort engine engagement
                           (map add_engagement (matched re db)))) =
  Nat.min 5 (List.length (matched re db)).
Proof. now rewrite length_firstn, store_sort_length, length_map. Qed.


Lemma search_left_out (re : string -> bool) (db : Collection) (p : Post)
  (r : SearchDoc) :
  let results :=
    firstn 5 (store_sort engine engagement
                (map add_engagement (matched re db))) in
  In p (matched re db) -> ~ In (add_engagement p) results -> In r results ->
  engagement (add_engagement p) <= engagement r.
Proof.
  intros results Hp Hn Hr.
  assert (Hin : In (add_engagement p)
                   (store_sort engine engagement
                      (map add_engagement (matched re db))))
    by (apply store_sort_In; now apply in_map).
  exact (dropped_not_larger engagement 5 _ (add_engagement p)
           (store_sort_sorted engine engagement _) Hin Hn r Hr).
Qed.

End Search.





(** X3: a search answers with the matching documents, five at most, and
    a matching document that is left out has no more engagement than any
    returned one. *)
Theorem search_keeps_most_engaging (engine : Engine) (q : string)
  (db : Collection) (re : string -> bool) :
  regex engine q = inr re ->
  exists results,
    search_posts engine q db =
      json (SearchBody q (Nat.min 5 (List.length (matched re db))) results) /\
    List.length results = Nat.min 5 (List.length (matched re db)) /\
    forall p r,
      In p (matched re db) -> ~ In (add_engagement p) results ->
      In r results -> engagement (add_engagement p) <= engagement r.
Proof.
  intros R. rewrite (search_posts_compiled engine q db re R). cbv zeta.
  rewrite search_results_length.
  eexists. split; [reflexivity|]. split; [apply search_results_length|].
  intros p r. apply search_left_out.
Qed.

Lemma search_keeps_most_engaging_witness :
  let db := [example_post 1%N "a" "b" 0 []; example_post 2%N "c" "d" 1 []] in
  exists results,
    search_posts strict_engine "a" db =
      json (SearchBody "a"
              (Nat.min 5 (List.length (matched (Regex.search [Regex.Lit "a"]) db)))
              results) /\
    List.length results =
      Nat.min 5 (List.length (matched (Regex.search [Regex.Lit "a"]) db)) /\
    forall p r,
      In p (matched (Regex.search [Regex.Lit "a"]) db) ->
      ~ In (add_engagement p) results ->
      In r results -> engagement (add_engagement p) <= engagement r.
Proof.
  intros db.
  apply (search_keeps_most_engaging strict_engine "a" db). reflexivity.
Defined.

Lemma to_lower_idem (c : ascii) : Js.to_lower (Js.to_lower c) = Js.to_lower c.
Proof. destruct c as [[] [] [] [] [] [] [] []]; reflexivity. Qed.

Lemma is_meta_lower (c : ascii) :
  Regex.is_meta (Js.to_lower c) = Regex.is_meta c /\
  Ascii.eqb (Js.to_lower c) "." = Ascii.eqb c "." /\
  (Js.code (Js.to_lower c) =? 10) = (Js.code c =? 10).
Proof. destruct c as [[] [] [] [] [] [] [] []]; repeat split. Qed.

Lemma parse_lower (q : string) :
  Regex.parse (lower q) = option_map (map lower_atom) (Regex.parse q).
Proof.
  induction q as [|c q IH]; [reflexivity|].
  cbn [lower Regex.parse]. rewrite IH.
  destruct (is_meta_lower c) as (M & D & _). rewrite M, D.
  destruct (Ascii.eqb c "."); [|destruct (Regex.is_meta c)];
    destruct (Regex.parse q); reflexivity.
Qed.

Lemma atom_matches_lower (a : Regex.atom) (c : ascii) :
  Regex.atom_matches (lower_atom a) c = Regex.atom_matches a c /\
  Regex.atom_matches a (Js.to_lower c) = Regex.atom_matches a c.
Proof.
  destruct a as [x|]; simpl; unfold Js.eqb_ci.
  - now rewrite !to_lower_idem.
  - destruct (is_meta_lower c) as (_ & _ & L). now rewrite L.
Qed.

Lemma match_here_lower (p : list Regex.atom) (s : string) :
  Regex.match_here (map lower_atom p) s = Regex.match_here p s /\
  Regex.match_here p (lower s) = Regex.match_here p s.
Proof.
  revert s. induction p as [|a p IH]; intros s; [now split|].
  destruct s as [|c s]; [now split|].
  cbn [map lower Regex.match_here].
  destruct (atom_matches_lower a c) as [-> ->].
  destruct (IH s) as [-> ->]. now split.
Qed.

Lemma search_lower (p : list Regex.atom) (s : string) :
  Regex.search (map lower_atom p) s = Regex.search p s /\
  Regex.search p (lower s) = Regex.search p s.
Proof.
  induction s as [|c s [IH1 IH2]].
  - cbn [lower Regex.search].
    destruct (match_here_lower p EmptyString) as [-> _]. now split.
  - cbn [lower Regex.search]. rewrite IH1, IH2.
    destruct (match_here_lower p (String c s)) as [-> E].
    cbn [lower] in E. now rewrite E.
Qed.

(** X5: a search does not depend on the case of letters, neither in the
    query text nor in the titles and contents: for a query of literal
    characters and dots, the query in lower case selects and ranks the
    same documents, and a text passes the pattern if and only if the
    text in lower case does. *)
Theorem search_ignores_case (engine : Engine) (q : string) (db : Collection) :
  Regex.parse q <> None ->
  search_pipeline engine (lower q) db = search_pipeline engine q db /\
  exists re, regex engine q = inr re /\
             forall s, re (lower s) = re s.
Proof.
  intros P. destruct (Regex.parse q) as [p|] eqn:E; [clear P | now elim P].
  assert (R : regex engine q = inr (Regex.search p))
    by (unfold regex; now rewrite E).
  assert (R' : regex engine (lower q) = inr (Regex.search (map lower_atom p)))
    by (unfold regex; now rewrite parse_lower, E).
  split.
  - rewrite (search_pipeline_compiled engine _ db _ R).
    rewrite (search_pipeline_compiled engine _ db _ R').
    replace (matched (Regex.search (map lower_atom p)) db)
      with (matched (Regex.search p) db); [reflexivity|].
    apply filter_ext. intros x.
    now rewrite !(proj1 (search_lower p _)).
  - exists (Regex.search p). split; [exact R|].
    intros s. apply search_lower.
Qed.

Lemma search_ignores_case_witness :
  let db := [example_post 1%N "Hello" "b" 0 []] in
  search_pipeline strict_engine (lower "HeL.o") db =
    search_pipeline strict_engine "HeL.o" db /\
  exists re, regex strict_engine "HeL.o" = inr re /\
             forall s, re (lower s) = re s.
Proof.
  intros db. apply (search_ignores_case strict_engine "HeL.o" db). discriminate.
Defined.

(** ** Listing *)

Lemma truthy_nonempty (s : string) : Js.truthy s = true <-> s <> EmptyString.
Proof. destruct s; simpl; split; congruence. Qed.

Lemma has_tag (t : string) (ts : list string) :
  existsb (String.eqb t) ts = true <-> In t ts.
Proof.
  rewrite existsb_exists. split.
  - intros (x & Hx & E). apply String.eqb_eq in E. now subst.
  - intros H. exists t. split; [exact H | apply String.eqb_refl].
Qed.

Lemma filter_tags_list_filter (q : ListQuery) :
  filter_tags (list_filter q) =
  match q_tag q with
  | Some t => if Js.truthy t then Some t else None
  | None => None
  end.
Proof.
  unfold list_filter.
  destruct (q_tag q) as [t|], (q_published q); try destruct (Js.truthy t);
    reflexivity.
Qed.

Lemma filter_published_list_filter (q : ListQuery) :
  filter_published (list_filter q) =
  option_map (fun s => String.eqb s "true") (q_published q).
Proof.
  unfold list_filter.
  destruct (q_tag q) as [t|], (q_published q); try destruct (Js.truthy t);
    reflexivity.
Qed.

Lemma matches_list_filter (q : ListQuery) (p : Post) :
  matches (list_filter q) p = true <-> satisfies q p.
Proof.
  unfold matches, satisfies.
  rewrite andb_true_iff, filter_tags_list_filter, filter_published_list_filter.
  assert (Htag :
    match (match q_tag q with
           | Some t => if Js.truthy t then Some t else None
           | None => None
           end) with
    | Some t => existsb (String.eqb t) (tags p)
    | None => true
    end = true <->
    (forall t, q_tag q = Some t -> t <> EmptyString -> In t (tags p))).
  { destruct (q_tag q) as [t|]; [destruct (Js.truthy t) eqn:T|].
    - rewrite has_tag. split.
      + intros H x [= <-] _. exact H.
      + intros H. apply (H t eq_refl). now apply truthy_nonempty.
    - split; [|reflexivity].
      intros _ x [= <-] N. destruct t; [now elim N | discriminate T].
    - split; [|reflexivity]. intros _ x [=]. }
  assert (Hpub :
    match option_map (fun s => String.eqb s "true") (q_published q) with
    | Some b => Bool.eqb (published p) b
    | None => true
    end = true <->
    (forall s, q_published q = Some s -> published p = String.eqb s "true")).
  { destruct (q_published q) as [s|]; simpl.
    - rewrite eqb_true_iff. split.
      + intros H x [= <-]. exact H.
      + intros H. now apply H.
    - split; [|reflexivity]. intros _ x [=]. }
  tauto.
Qed.


Lemma selected_spec (q : ListQuery) (db : Collection) (p : Post) :
  In p (selected q db) <-> In p db /\ satisfies q p.
Proof.
  unfold selected. rewrite filter_In. now rewrite matches_list_filter.
Qed.

Lemma In_cut {A} (x : A) (c : option nat) (l : list A) :
  In x (cut c l) -> In x l.
Proof. destruct c; simpl; [apply In_firstn | trivial]. Qed.

Lemma sorted_desc_cut {A} (key : A -> Z) (c : option nat) (l : list A) :
  sorted_desc key l -> sorted_desc key (cut c l).
Proof. destruct c; simpl; [apply sorted_desc_firstn | trivial]. Qed.

Lemma cut_length {A} (c : option nat) (l : list A) :
  List.length (cut c l) = limited c (List.length l).
Proof. destruct c; simpl; [apply length_firstn | reflexivity]. Qed.

Lemma cut_rest {A} (c : option nat) (l : list A) :
  cut c l ++ match c with Some k => skipn k l | None => [] end = l.
Proof. destruct c; simpl; [apply firstn_skipn | apply app_nil_r]. Qed.

Lemma cut_left_out {A} (key : A -> Z) (c : option nat) (l : list A) (b : A) :
  sorted_desc key l -> In b l -> ~ In b (cut c l) ->
  forall a, In a (cut c l) -> key b <= key a.
Proof.
  destruct c; simpl; [apply dropped_not_larger|].
  intros _ H N. contradiction.
Qed.

Lemma count_limit_Some (limit : option Z) (n : Z) :
  count_limit limit = Some n -> limit = Some n /\ Js.is_long n = true.
Proof.
  unfold count_limit. destruct limit as [m|]; [|discriminate].
  destruct (Js.is_long m) eqn:F; [|discriminate].
  intros [= <-]. now split.
Qed.

Section Listing.

Variable engine : Engine.

Lemma list_posts_counted (q : ListQuery) (db : Collection) (n : Z) :
  store_limit q = Some n ->
  list_posts engine q db =
    let posts := cut (limit_count engine n (found engine q db)) (found engine q db) in
    json (ListBody (List.length posts) posts).
Proof.
  intros L. unfold list_posts, Post_find, bind, ret.
  unfold store_limit in L. now rewrite L.
Qed.

Lemma list_posts_other (q : ListQuery) (db : Collection) :
  store_limit q = None ->
  list_posts engine q db =
    match limit_other engine (limit_param q) with
    | inr c =>
        let posts := cut c (found engine q db) in
        json (ListBody (List.length posts) posts)
    | inl e => status_json 500 (ErrorBody e)
    end.
Proof.
  intros L. unfold list_posts, Post_find, bind, ret.
  unfold store_limit in L. rewrite L.
  now destruct (limit_other engine (limit_param q)).
Qed.

(** Whatever the limit, a list answer is an error of the store or a cut
    of the selected documents, newest first. *)
Lemma list_posts_cases (q : ListQuery) (db : Collection) :
  (exists c,
      list_posts engine q db =
        json (ListBody (List.length (cut c (found engine q db))) (cut c (found engine q db)))
      /\ (forall n, store_limit q = Some n ->
                    c = limit_count engine n (found engine q db))
      /\ (store_limit q = None -> limit_other engine (limit_param q) = inr c))
  \/
  (exists e,
      list_posts engine q db = status_json 500 (ErrorBody e) /\
      store_limit q = None /\ limit_other engine (limit_param q) = inl e).
Proof.
  destruct (store_limit q) as [n|] eqn:L.
  - left. exists (limit_count engine n (found engine q db)).
    rewrite (list_posts_counted q db n L). split; [reflexivity|].
    split; [now intros m [= <-] | discriminate].
  - rewrite (list_posts_other q db L).
    destruct (limit_other engine (limit_param q)) as [e|c].
    + right. now exists e.
    + left. exists c. split; [reflexivity|]. split; [discriminate | trivial].
Qed.

Lemma found_In (q : ListQuery) (db : Collection) (p : Post) :
  In p (found engine q db) <-> In p db /\ satisfies q p.
Proof. unfold found. now rewrite store_sort_In, selected_spec. Qed.

Lemma found_length (q : ListQuery) (db : Collection) :
  List.length (found engine q db) = List.length (selected q db).
Proof. apply store_sort_length. Qed.

Lemma found_sorted (q : ListQuery) (db : Collection) :
  sorted_desc createdAt (found engine q db).
Proof. apply store_sort_sorted. Qed.

Lemma found_perm (q : ListQuery) (db : Collection) :
  Permutation (found engine q db) (selected q db).
Proof. apply store_sort_perm. Qed.

End Listing.

Lemma limit_param_absent (q : ListQuery) :
  q_limit q = None -> limit_param q = Some 10 /\ store_limit q = Some 10.
Proof. unfold store_limit, limit_param. now intros ->. Qed.

Lemma exact_finite (z : Z) : Js.exact z = true -> Js.is_finite z = true.
Proof.
  unfold Js.exact, Js.is_finite. intros H. apply Z.leb_le in H.
  apply Z.ltb_lt. assert (2 ^ 53 < Js.infinity) by reflexivity. lia.
Qed.

Lemma exact_long (z : Z) : Js.exact z = true -> Js.is_long z = true.
Proof.
  unfold Js.exact, Js.is_long. intros H. apply Z.leb_le in H.
  apply Z.ltb_lt. lia.
Qed.

Lemma limit_param_numeral (q : ListQuery) (ds : list Z) :
  ds <> [] -> Forall is_digit ds -> q_limit q = Some (numeral ds) ->
  limit_param q = Some (Js.to_double (numeral_value ds)) /\
  (Js.exact (numeral_value ds) = true ->
   store_limit q = Some (numeral_value ds)).
Proof.
  intros N F E. unfold store_limit, limit_param. rewrite E.
  rewrite (parseInt_numeral ds N F). split; [reflexivity|].
  intros X. rewrite (to_double_exact _ X). simpl.
  now rewrite (exact_long _ X).
Qed.

(** C1, as stated, fails: a limit that [parseInt] cannot read is passed
    on as [NaN], not replaced by 10. *)
Lemma list_limit_unparsable_is_NaN :
  let q := {| q_tag := None; q_published := None; q_limit := Some "abc" |} in
  Js.parseInt "abc" = None /\ limit_param q = None /\
  limit_param q <> Some 10.
Proof. simpl. repeat split. discriminate. Qed.

(** C1 (amended): the limit of a list request is [parseInt] of the
    parameter, and 10 when the parameter is absent, in which case the
    answer lists the selected documents, ten at most; a decimal numeral
    is read as the double nearest to the number it denotes, and when that
    number is positive and one that doubles hold exactly the answer lists
    the selected documents, that many at most; a parameter in which
    [parseInt] finds no integer gives the limit [NaN], not 10, and then
    the answer is the store's: 500 when the store rejects the limit, 200
    with the selected documents as the store cuts them otherwise. *)
Theorem list_limit_default (engine : Engine) (q : ListQuery) (db : Collection) :
  limit_param q =
    match q_limit q with
    | Some s => Js.parseInt s
    | None => Some 10
    end /\
  (q_limit q = None ->
   exists posts,
     list_posts engine q db = json (ListBody (List.length posts) posts) /\
     List.length posts = Nat.min 10 (List.length (selected q db))) /\
  (forall ds, ds <> [] -> Forall is_digit ds ->
              q_limit q = Some (numeral ds) ->
     limit_param q = Some (Js.to_double (numeral_value ds)) /\
     (Js.exact (numeral_value ds) = true -> 0 < numeral_value ds ->
      exists posts,
        list_posts engine q db = json (ListBody (List.length posts) posts) /\
        List.length posts =
          Nat.min (Z.to_nat (numeral_value ds))
                  (List.length (selected q db)))) /\
  (forall s, q_limit q = Some s -> Js.parseInt s = None ->
     limit_param q = None /\ limit_param q <> Some 10 /\
     match limit_other engine None with
     | inl e => list_posts engine q db = status_json 500 (ErrorBody e)
     | inr c =>
         exists posts,
           list_posts engine q db = json (ListBody (List.length posts) posts) /\
           List.length posts = limited c (List.length (selected q db))
     end).
Proof.
  assert (positive : forall n, 0 < n -> store_limit q = Some n ->
            exists posts,
              list_posts engine q db = json (ListBody (List.length posts) posts) /\
              List.length posts =
                Nat.min (Z.to_nat n) (List.length (selected q db))).
  { intros n Hn L. rewrite (list_posts_counted engine q db n L). cbv zeta.
    eexists. split; [reflexivity|].
    rewrite cut_length, found_length. unfold limit_count.
    destruct (Z.eqb_spec n 0); [lia|].
    destruct (Z.ltb_spec 0 n); [reflexivity | lia]. }
  split; [|split; [|split]].
  - unfold limit_param. now destruct (q_limit q).
  - intros A. destruct (limit_param_absent q A) as [_ L].
    apply (positive 10); [lia | exact L].
  - intros ds N F E.
    destruct (limit_param_numeral q ds N F E) as [P L].
    split; [exact P|]. intros X Pos. apply positive; auto.
  - intros s E P.
    assert (LP : limit_param q = None) by (unfold limit_param; now rewrite E).
    split; [exact LP|]. split; [now rewrite LP|].
    assert (L : store_limit q = None) by (unfold store_limit; now rewrite LP).
    rewrite (list_posts_other engine q db L), LP.
    destruct (limit_other engine None) as [e|c]; [reflexivity|].
    cbv zeta. eexists. split; [reflexivity|].
    now rewrite cut_length, found_length.
Qed.

Lemma list_limit_default_witness :
  let q := {| q_tag := None; q_published := None; q_limit := Some "25" |} in
  let db := [example_post 1%N "a" "b" 0 []] in
  limit_param q = Some (Js.to_double (numeral_value [2; 5])) /\
  exists posts,
    list_posts strict_engine q db = json (ListBody (List.length posts) posts) /\
    List.length posts =
      Nat.min (Z.to_nat (numeral_value [2; 5])) (List.length (selected q db)).
Proof.
  intros q db.
  destruct (list_limit_default strict_engine q db) as (_ & _ & L & _).
  destruct (L [2; 5]) as [P C]; [discriminate | | reflexivity |].
  - repeat constructor; unfold is_digit; lia.
  - split; [exact P|]. apply C; reflexivity.
Defined.

(** C6, as stated, fails: the parameter [tag] given as the empty text
    adds no constraint, so a post whose tags do not contain it is
    listed. *)
Lemma list_empty_tag_is_no_filter :
  let q := {| q_tag := Some EmptyString; q_published := None; q_limit := None |} in
  let p := example_post 1%N "a" "b" 0 [] in
  list_posts strict_engine q [p] = json (ListBody 1 [p]) /\
  ~ In EmptyString (tags p).
Proof.
  simpl. split; [reflexivity|]. intros [H|[]]. discriminate H.
Qed.

(** C6 (amended): every list request is answered either 500, which can
    only happen when the limit is no integer of 64 bits and the store
    rejects it, or 200 with documents of the collection, each listed once, such
    that: when [tag] is given and is not the empty text, each has that
    exact value among its tags; when [published] is given, each has
    [published] equal to (the parameter = "true"), so any other text asks
    for [false]; an absent parameter (and an empty [tag]) constrains
    nothing; the documents are sorted descending by [createdAt]; and
    every document that meets the constraints is listed when the limit is
    0 or at least their number. *)
Theorem list_filtered_sorted (engine : Engine) (q : ListQuery) (db : Collection) :
  (exists posts rest,
      list_posts engine q db = json (ListBody (List.length posts) posts) /\
      Permutation (posts ++ rest) (selected q db) /\
      (forall p, In p (selected q db) <-> In p db /\ satisfies q p) /\
      (forall p, In p posts -> In p db /\ satisfies q p) /\
      sorted_desc createdAt posts /\
      (forall n, store_limit q = Some n ->
                 n = 0 \/ Z.of_nat (List.length (selected q db)) <= n ->
                 rest = []))
  \/
  (exists e,
      list_posts engine q db = status_json 500 (ErrorBody e) /\
      store_limit q = None).
Proof.
  destruct (list_posts_cases engine q db) as [(c & E & F & _) | (e & E & L & _)].
  - left.
    exists (cut c (store_sort engine createdAt (selected q db))),
           (match c with
            | Some k => skipn k (store_sort engine createdAt (selected q db))
            | None => []
            end).
    split; [exact E|]. split; [|split; [|split; [|split]]].
    + rewrite cut_rest. apply store_sort_perm.
    + apply selected_spec.
    + intros p H. apply In_cut in H. now apply (found_In engine) in H.
    + apply sorted_desc_cut, store_sort_sorted.
    + intros n L C. rewrite (F n L). unfold limit_count.
      destruct (Z.eqb_spec n 0) as [Z0|NZ]; [reflexivity|].
      destruct C as [C|C]; [contradiction|].
      destruct (Z.ltb_spec 0 n) as [P|NP].
      * apply skipn_all2. rewrite store_sort_length. lia.
      * assert (Hl : List.length (selected q db) = 0%nat) by lia.
        apply skipn_all2. rewrite store_sort_length. lia.
  - right. now exists e.
Qed.

Lemma list_filtered_sorted_witness :
  let q := {| q_tag := Some "x"; q_published := Some "true";
              q_limit := Some "2" |} in
  let db := [example_post 1%N "a" "b" 0 []; example_post 2%N "c" "d" 1 []] in
  exists posts,
    list_posts strict_engine q db = json (ListBody (List.length posts) posts) /\
    Permutation posts (selected q db) /\
    sorted_desc createdAt posts.
Proof.
  intros q db.
  destruct (list_filtered_sorted strict_engine q db)
    as [(posts & rest & E & P & _ & _ & S & R) | (e & E & _)].
  - exists posts. split; [exact E|]. split; [|exact S].
    rewrite (R 2) in P; [now rewrite app_nil_r in P | reflexivity |].
    right. simpl. lia.
  - discriminate E.
Defined.

(** X1: for a list request with an integer limit n of 64 bits, the
    count of the answer is the number of documents listed, the number m of
    selected documents cut to n: min(n, m) for a positive n, m for n = 0,
    and for a negative n at most min(|n|, 101, m), the first batch being
    all that comes back. *)
Theorem list_count (engine : Engine) (q : ListQuery) (db : Collection) (n : Z) :
  store_limit q = Some n ->
  exists posts,
    list_posts engine q db = json (ListBody (List.length posts) posts) /\
    (0 < n -> List.length posts =
              Nat.min (Z.to_nat n) (List.length (selected q db))) /\
    (n = 0 -> List.length posts = List.length (selected q db)) /\
    (n < 0 -> (List.length posts <=
               Nat.min (Nat.min (Z.to_nat (- n)) 101)
                       (List.length (selected q db)))%nat) /\
    (forall p, In p (selected q db) <-> In p db /\ satisfies q p).
Proof.
  intros L. rewrite (list_posts_counted engine q db n L). cbv zeta.
  eexists. split; [reflexivity|].
  assert (Len : forall c,
            List.length (cut c (store_sort engine createdAt (selected q db))) =
            limited c (List.length (selected q db)))
    by (intros c; now rewrite cut_length, store_sort_length).
  rewrite Len. unfold limit_count, limited.
  split; [|split; [|split]]; [| | |apply selected_spec].
  - intros P. destruct (Z.eqb_spec n 0); [lia|].
    destruct (Z.ltb_spec 0 n); [reflexivity | lia].
  - intros ->. reflexivity.
  - intros P. destruct (Z.eqb_spec n 0); [lia|].
    destruct (Z.ltb_spec 0 n); lia.
Qed.

Lemma list_count_witness :
  let q := {| q_tag := Some "x"; q_published := None; q_limit := Some "-1" |} in
  let db := [example_post 1%N "a" "b" 0 []; example_post 2%N "c" "d" 1 []] in
  exists posts,
    list_posts strict_engine q db = json (ListBody (List.length posts) posts) /\
    (List.length posts <=
       Nat.min (Nat.min (Z.to_nat (- -1)) 101)
               (List.length (selected q db)))%nat.
Proof.
  intros q db.
  destruct (list_count strict_engine q db (-1)) as (posts & E & _ & _ & N & _);
    [reflexivity|].
  exists posts. split; [exact E|]. apply N. lia.
Defined.

(** X2: a list answer keeps the newest: a selected document that the
    limit leaves out was created no later than any listed one. *)
Theorem list_keeps_newest (engine : Engine) (q : ListQuery) (db : Collection)
  (n : Z) (posts : list Post) :
  list_limit q = Some n ->
  list_posts engine q db = json (ListBody (List.length posts) posts) ->
  forall p p',
    In p db -> satisfies q p -> ~ In p posts -> In p' posts ->
    createdAt p <= createdAt p'.
Proof.
  intros _ E p p' Hdb Hs Hn Hp'.
  assert (C : exists c, posts = cut c (found engine q db)).
  { destruct (list_posts_cases engine q db) as [(c & A & _) | (e & A & _)];
      rewrite A in E; [|discriminate E].
    exists c. now injection E as _ E. }
  destruct C as [c ->].
  assert (Hsel : In p (found engine q db))
    by (apply (found_In engine); now split).
  exact (cut_left_out createdAt _ _ p (found_sorted engine q db)
           Hsel Hn p' Hp').
Qed.

Lemma list_keeps_newest_witness :
  let old := example_post 1%N "a" "b" 0 [] in
  let new := {| _id := 2%N; title := "c"; content := "d"; author := "ann";
                tags := []; likes := Js.zero; comments := [];
                published := false; createdAt := 5 |} in
  let q := {| q_tag := None; q_published := None; q_limit := Some "1" |} in
  createdAt old <= createdAt new.
Proof.
  intros old new q.
  apply (list_keeps_newest strict_engine q [old; new] 1 [new]);
    try reflexivity.
  - now left.
  - split; intros x; discriminate.
  - intros [H|[]]. discriminate H.
  - now left.
Defined.

(** X15: the limit of a list request is read from the start of the
    parameter: white space before it is skipped, a sign [+] or [-] is
    taken, and the decimal digits that follow give the number, whatever
    comes after them (as long as it does not make a hexadecimal
    numeral); the limit is the double nearest to that number, hence the
    number itself when doubles hold it exactly. *)
Theorem list_limit_reads_prefix (q : ListQuery) (ws : string) (sgn : Sign)
  (ds : list Z) (rest : string) :
  all_white ws = true -> ds <> [] -> Forall is_digit ds -> stops ds rest ->
  q_limit q = Some (ws ++ sign_text sgn ++ numeral ds ++ rest)%string ->
  limit_param q = Some (Js.to_double (sign_value sgn * numeral_value ds)) /\
  (Js.exact (numeral_value ds) = true ->
   list_limit q = Some (sign_value sgn * numeral_value ds) /\
   store_limit q = Some (sign_value sgn * numeral_value ds)).
Proof.
  intros W N F S E.
  assert (P : limit_param q =
              Some (Js.to_double (sign_value sgn * numeral_value ds))).
  { unfold limit_param. rewrite E. now apply parseInt_prefix. }
  split; [exact P|]. intros X.
  assert (X' : Js.exact (sign_value sgn * numeral_value ds) = true).
  { apply exact_weaken with (2 := X). destruct sgn; simpl sign_value; lia. }
  unfold list_limit, store_limit. rewrite P, (to_double_exact _ X').
  cbn [finite_limit count_limit].
  now rewrite (exact_finite _ X'), (exact_long _ X').
Qed.

Lemma list_limit_reads_prefix_witness :
  let q := {| q_tag := None; q_published := None;
              q_limit := Some "  -12px" |} in
  limit_param q = Some (Js.to_double (sign_value Minus * numeral_value [1; 2])) /\
  (Js.exact (numeral_value [1; 2]) = true ->
   list_limit q = Some (sign_value Minus * numeral_value [1; 2]) /\
   store_limit q = Some (sign_value Minus * numeral_value [1; 2])).
Proof.
  intros q. apply (list_limit_reads_prefix q "  " Minus [1; 2] "px").
  - reflexivity.
  - discriminate.
  - repeat constructor; unfold is_digit; lia.
  - split; [reflexivity | discriminate].
  - reflexivity.
Defined.

(** ** Statistics *)

Lemma group_fold (db : Collection) (a : GroupAcc) :
  fold_left group_step db a =
  {| acc_totalPosts := acc_totalPosts a + Z.of_nat (List.length db);
     acc_likes := acc_likes a ++ map (fun p => Js.value (likes p)) db;
     acc_sum := acc_sum a + sum_likes db;
     acc_magnitude := acc_magnitude a + magnitude db;
     acc_publishedCount :=
       acc_publishedCount a + Z.of_nat (count_published db) |}.
Proof.
  revert a. induction db as [|p db IH]; intros a.
  - destruct a; unfold sum_likes, magnitude, count_published; simpl.
    rewrite app_nil_r. f_equal; lia.
  - cbn [fold_left]. rewrite IH.
    unfold group_step, sum_likes, magnitude, count_published.
    cbn [acc_totalPosts acc_likes acc_sum acc_magnitude acc_publishedCount
         map fold_right filter List.length].
    rewrite <- app_assoc. cbn [app].
    destruct (published p); cbn [List.length]; f_equal; lia.
Qed.

Lemma group_all (engine : Engine) (db : Collection) :
  group_result engine (fold_left group_step db group_init) =
  let sums :=
    if exact_sums db
    then (Some (sum_likes db),
          Some (Js.round_ratio (sum_likes db) (Z.of_nat (List.length db))))
    else group_inexact engine (map (fun p => Js.value (likes p)) db) in
  {| totalPosts := Z.of_nat (List.length db);
     totalLikes := fst sums;
     avgLikes := snd sums;
     publishedCount := Z.of_nat (count_published db) |}.
Proof.
  rewrite group_fold. unfold group_result, exact_sums.
  cbn [group_init acc_totalPosts acc_likes acc_sum acc_magnitude
       acc_publishedCount app Z.add].
  destruct (Js.exact (magnitude db) && Js.exact (Z.of_nat (List.length db)));
    [reflexivity|].
  now destruct (group_inexact engine _).
Qed.

Lemma get_stats_nonempty (engine : Engine) (db : Collection) :
  db <> [] ->
  get_stats engine db =
    json (StatsBody (StatsRecord
            (group_result engine (fold_left group_step db group_init)))).
Proof. intros N. destruct db as [|p db]; [now elim N | reflexivity]. Qed.






(** X14: the statistics count consistently: in the record of a
    collection that is not empty, totalPosts is at least 1 and
    publishedCount lies between 0 and totalPosts. *)
Theorem stats_counts_bounded (engine : Engine) (db : Collection) (s : Stats) :
  get_stats engine db = json (StatsBody (StatsRecord s)) ->
  1 <= totalPosts s /\ 0 <= publishedCount s <= totalPosts s.
Proof.
  destruct db as [|p db]; [discriminate|].
  rewrite get_stats_nonempty, group_all by discriminate.
  intros [= <-]. cbn [totalPosts publishedCount].
  unfold count_published.
  pose proof (filter_length_le published (p :: db)).
  simpl List.length in *. lia.
Qed.

Lemma stats_counts_bounded_witness :
  let db := [example_post 1%N "a" "b" 2 []] in
  let s := group_result strict_engine (fold_left group_step db group_init) in
  1 <= totalPosts s /\ 0 <= publishedCount s <= totalPosts s.
Proof.
  intros db s. apply (stats_counts_bounded strict_engine db s). reflexivity.
Defined.

(** ** Updates of one document *)

Section Update.

Variables (id : ObjectId) (update : Post -> Post).

Lemma update_missing (db : Collection) :
  findById id db = None -> findByIdAndUpdate id update db = (db, None).
Proof.
  unfold findById. induction db as [|p db IH]; simpl; [reflexivity|].
  destruct (has_id id p); [discriminate|].
  intros H. now rewrite (IH H).
Qed.

Lemma update_none_same (db : Collection) :
  snd (findByIdAndUpdate id update db) = None ->
  fst (findByIdAndUpdate id update db) = db.
Proof.
  induction db as [|p db IH]; simpl; [reflexivity|].
  destruct (has_id id p); [discriminate|].
  destruct (findByIdAndUpdate id update db) as [rest r]. simpl in *.
  intros H. now rewrite (IH H).
Qed.

Hypothesis update_keeps_id : forall p, _id (update p) = _id p.

Lemma update_found (db : Collection) (p : Post) :
  findById id db = Some p ->
  exists db',
    findByIdAndUpdate id update db = (db', Some (update p)) /\
    findById id db' = Some (update p) /\
    (forall id', id' <> id -> findById id' db' = findById id' db).
Proof.
  unfold findById, has_id.
  induction db as [|x db IH]; simpl; [discriminate|].
  unfold has_id. destruct (N.eqb (_id x) id) eqn:E.
  - intros [= ->]. eexists. split; [reflexivity|]. simpl.
    rewrite update_keeps_id, E. split; [reflexivity|].
    intros id' Hid'. apply N.eqb_eq in E.
    assert (N : N.eqb (_id p) id' = false) by (apply N.eqb_neq; congruence).
    now rewrite N.
  - intros H. destruct (IH H) as (db' & -> & F & O).
    eexists. split; [reflexivity|]. simpl. rewrite E.
    split; [exact F|].
    intros id' Hid'. destruct (N.eqb (_id x) id'); [reflexivity|].
    now apply O.
Qed.

(** Documents keep their positions, and each is left as it was or, if
    it has the id, updated. *)
Lemma update_pointwise (db : Collection) :
  Forall2 (fun p p' => p' = p \/ (_id p = id /\ p' = update p))
          db (fst (findByIdAndUpdate id update db)).
Proof.
  induction db as [|x db IH]; simpl; [constructor|].
  unfold has_id. destruct (N.eqb (_id x) id) eqn:E.
  - apply N.eqb_eq in E. simpl. constructor; [now right|].
    clear. induction db; constructor; auto.
  - destruct (findByIdAndUpdate id update db) as [rest r]. simpl in *.
    constructor; [now left | exact IH].
Qed.

End Update.

Lemma last_pushed {A} (l : list A) (c : A) :
  nth_error (l ++ [c]) (List.length (l ++ [c]) - 1)%nat = Some c.
Proof.
  rewrite length_app. simpl.
  replace (List.length l + 1 - 1)%nat with (List.length l) by lia.
  rewrite nth_error_app2 by lia. now rewrite Nat.sub_diag.
Qed.

(** ** Like and Comment *)

Section PathId.

Variable engine : Engine.

Lemma like_post_cast (id : string) (oid : ObjectId) (db : Collection) :
  cast_ObjectId engine id = Some oid ->
  like_post engine id db =
    match findByIdAndUpdate oid inc_likes db with
    | (db', None) => (db', status_json 404 (MessageBody "Post not found"))
    | (db', Some p) => (db', json (LikesBody (likes p)))
    end.
Proof.
  intros C. unfold like_post, Post_findByIdAndUpdate. rewrite C.
  cbn [ret]. now destruct (findByIdAndUpdate oid inc_likes db) as [db' [p|]].
Qed.

Lemma like_post_malformed (id : string) (db : Collection) :
  cast_ObjectId engine id = None ->
  like_post engine id db = (db, status_json 500 (ErrorBody (CastError id))).
Proof.
  intros C. unfold like_post, Post_findByIdAndUpdate. now rewrite C.
Qed.

Lemma add_comment_malformed (now : Date) (id : string) (b : CommentInput)
  (db : Collection) :
  cast_ObjectId engine id = None ->
  add_comment engine now id b db =
    (db, status_json 500 (ErrorBody (CastError id))).
Proof.
  intros C. unfold add_comment, Post_findByIdAndUpdate. now rewrite C.
Qed.

Lemma add_comment_missing (now : Date) (id : string) (oid : ObjectId)
  (b : CommentInput) (db : Collection) :
  cast_ObjectId engine id = Some oid -> findById oid db = None ->
  add_comment engine now id b db =
    (db, status_json 500 (ErrorBody TypeError_null_property)).
Proof.
  intros C H. unfold add_comment, Post_findByIdAndUpdate. rewrite C.
  cbn [ret]. now rewrite (update_missing oid _ db H).
Qed.

Lemma add_comment_found (now : Date) (id : string) (oid : ObjectId)
  (b : CommentInput) (db : Collection) (p : Post) :
  cast_ObjectId engine id = Some oid -> findById oid db = Some p ->
  let entry := {| text := in_text b; user := in_user b; date := now |} in
  exists db',
    add_comment engine now id b db = (db', json (CommentBody (Some entry))) /\
    findByIdAndUpdate oid (push_comment entry) db =
      (db', Some (push_comment entry p)) /\
    findById oid db' = Some (push_comment entry p) /\
    (forall id', id' <> oid -> findById id' db' = findById id' db).
Proof.
  intros C H entry.
  destruct (update_found oid (push_comment entry) (fun _ => eq_refl) db p H)
    as (db' & U & F & O).
  exists db'. unfold add_comment, Post_findByIdAndUpdate, cast_comment.
  rewrite C. cbn [in_text in_user in_date or_default ret].
  fold entry. rewrite U. cbn [property_of bind ret push_comment comments].
  rewrite last_pushed. auto.
Qed.

End PathId.




(** C7, as stated, fails for an id that is not an ObjectId: no post has
    the id [7], but the Like path answers 500 with the cast error, not
    404 with the fixed message, and the error of the Comment path is the
    cast error, not that of reading a missing result. *)
Lemma malformed_id_is_cast_error :
  let db := [example_post 1%N "a" "b" 2 []] in
  let b := {| in_text := Some "hi"; in_user := Some "bob"; in_date := None |} in
  cast_ObjectId strict_engine "7" = None /\
  snd (like_post strict_engine "7" db) =
    status_json 500 (ErrorBody (CastError "7")) /\
  status (snd (like_post strict_engine "7" db)) <> 404 /\
  snd (add_comment strict_engine 5 "7" b db) =
    status_json 500 (ErrorBody (CastError "7")).
Proof. repeat split. discriminate. Qed.

(** C7 (amended): on a well-formed id that no post has, a Comment call
    answers 500 with the error raised by reading [comments] of the
    missing result, not 404, while a Like call answers 404 with the
    fixed message; on a path id that is not an ObjectId both calls
    answer 500 with the cast error. *)
Theorem comment_missing_is_500 (engine : Engine) (now : Date) (id : string)
  (b : CommentInput) (db : Collection) :
  (forall oid,
     cast_ObjectId engine id = Some oid -> findById oid db = None ->
     snd (add_comment engine now id b db) =
       status_json 500 (ErrorBody TypeError_null_property) /\
     status (snd (add_comment engine now id b db)) <> 404 /\
     snd (like_post engine id db) =
       status_json 404 (MessageBody "Post not found")) /\
  (cast_ObjectId engine id = None ->
   snd (add_comment engine now id b db) =
     status_json 500 (ErrorBody (CastError id)) /\
   snd (like_post engine id db) =
     status_json 500 (ErrorBody (CastError id))).
Proof.
  split.
  - intros oid C H.
    rewrite (add_comment_missing engine now id oid b db C H).
    rewrite (like_post_cast engine id oid db C).
    rewrite (update_missing oid inc_likes db H).
    repeat split. discriminate.
  - intros C. rewrite (add_comment_malformed engine now id b db C).
    now rewrite (like_post_malformed engine id db C).
Qed.

Lemma comment_missing_is_500_witness :
  let db := [example_post 1%N "a" "b" 2 []] in
  let b := {| in_text := Some "hi"; in_user := Some "bob"; in_date := None |} in
  (snd (add_comment strict_engine 5 id_7 b db) =
     status_json 500 (ErrorBody TypeError_null_property) /\
   status (snd (add_comment strict_engine 5 id_7 b db)) <> 404 /\
   snd (like_post strict_engine id_7 db) =
     status_json 404 (MessageBody "Post not found")) /\
  (snd (add_comment strict_engine 5 "7" b db) =
     status_json 500 (ErrorBody (CastError "7")) /\
   snd (like_post strict_engine "7" db) =
     status_json 500 (ErrorBody (CastError "7"))).
Proof.
  intros db b. split.
  - apply (proj1 (comment_missing_is_500 strict_engine 5 id_7 b db) 7%N);
      reflexivity.
  - apply (proj2 (comment_missing_is_500 strict_engine 5 "7" b db)).
    reflexivity.
Defined.

(** C8, as stated, fails for an id that is not an ObjectId: no post has
    the id [zzz], and the Like call answers 500, not 404. *)
Lemma like_malformed_id_not_404 :
  let db := [example_post 1%N "a" "b" 2 []] in
  cast_ObjectId strict_engine "zzz" = None /\
  like_post strict_engine "zzz" db =
    (db, status_json 500 (ErrorBody (CastError "zzz"))) /\
  status (snd (like_post strict_engine "zzz" db)) <> 404.
Proof. repeat split. discriminate. Qed.

(** C8 (amended): a Like call on an id that no post has leaves the
    collection as it was: no document is created and none is changed;
    it answers 404 when the id is a well-formed ObjectId, and 500 with
    the cast error when it is not. *)
Theorem like_missing_changes_nothing (engine : Engine) (id : string)
  (db : Collection) :
  (forall oid, cast_ObjectId engine id = Some oid -> findById oid db = None) ->
  fst (like_post engine id db) = db /\
  (forall oid,
     cast_ObjectId engine id = Some oid ->
     like_post engine id db =
       (db, status_json 404 (MessageBody "Post not found"))) /\
  (cast_ObjectId engine id = None ->
   like_post engine id db = (db, status_json 500 (ErrorBody (CastError id)))).
Proof.
  intros H.
  assert (found : forall oid,
            cast_ObjectId engine id = Some oid ->
            like_post engine id db =
              (db, status_json 404 (MessageBody "Post not found"))).
  { intros oid C. rewrite (like_post_cast engine id oid db C).
    now rewrite (update_missing oid inc_likes db (H oid C)). }
  split; [|split; [exact found | apply like_post_malformed]].
  destruct (cast_ObjectId engine id) as [oid|] eqn:C.
  - now rewrite (found oid eq_refl).
  - now rewrite (like_post_malformed engine id db C).
Qed.

Lemma like_missing_changes_nothing_witness :
  let db := [example_post 1%N "a" "b" 2 []] in
  fst (like_post strict_engine id_7 db) = db /\
  (forall oid,
     cast_ObjectId strict_engine id_7 = Some oid ->
     like_post strict_engine id_7 db =
       (db, status_json 404 (MessageBody "Post not found"))) /\
  (cast_ObjectId strict_engine id_7 = None ->
   like_post strict_engine id_7 db =
     (db, status_json 500 (ErrorBody (CastError id_7)))).
Proof.
  intros db. apply (like_missing_changes_nothing strict_engine id_7 db).
  intros oid [= <-]. reflexivity.
Defined.

(** C10: the Comment operation validates nothing: for every existing post
    and every body, whether or not it has [text] and [user], the call
    answers 200, appends to the post's comments the entry made of the
    body's [text] and [user] (a field the body lacks is absent from the
    entry) dated at the time of the call, and returns that entry. *)
Theorem comment_unvalidated (engine : Engine) (now : Date) (id : string)
  (oid : ObjectId) (b : CommentInput) (db : Collection) (p : Post) :
  cast_ObjectId engine id = Some oid ->
  findById oid db = Some p ->
  let entry := {| text := in_text b; user := in_user b; date := now |} in
  exists db',
    add_comment engine now id b db = (db', json (CommentBody (Some entry))) /\
    status (snd (add_comment engine now id b db)) = 200 /\
    findById oid db' = Some (push_comment entry p) /\
    comments (push_comment entry p) = comments p ++ [entry] /\
    (forall id', id' <> oid -> findById id' db' = findById id' db).
Proof.
  intros C H entry.
  destruct (add_comment_found engine now id oid b db p C H)
    as (db' & A & _ & F & O).
  exists db'. rewrite A. repeat split; trivial.
Qed.

Lemma comment_unvalidated_witness :
  let p := example_post 1%N "a" "b" 2 [] in
  let b := {| in_text := None; in_user := None; in_date := None |} in
  let entry := {| text := None; user := None; date := 9 |} in
  exists db',
    add_comment strict_engine 9 id_1 b [p] =
      (db', json (CommentBody (Some entry))) /\
    status (snd (add_comment strict_engine 9 id_1 b [p])) = 200 /\
    findById 1%N db' = Some (push_comment entry p) /\
    comments (push_comment entry p) = comments p ++ [entry] /\
    (forall id', id' <> 1%N -> findById id' db' = findById id' [p]).
Proof.
  intros p b entry.
  apply (comment_unvalidated strict_engine 9 id_1 1%N b [p] p); reflexivity.
Defined.

(** ** Creation *)


Lemma has_id_exists (id : ObjectId) (db : Collection) :
  existsb (has_id id) db = true <-> In id (map _id db).
Proof.
  rewrite existsb_exists, in_map_iff. unfold has_id.
  split; intros (p & H1 & H2).
  - apply N.eqb_eq in H2. now exists p.
  - exists p. split; [exact H2 | now apply N.eqb_eq].
Qed.





(** What [save] answers when it stores. *)
Lemma save_stores (d : Document) (db db' : Collection) (p : Post) :
  save d db = inr (db', p) ->
  validate d = [] /\ p = to_Post d /\ db' = db ++ [p] /\
  ~ In (_id p) (map _id db).
Proof.
  unfold save. destruct (validate d); [|discriminate].
  destruct (existsb (has_id (_id (to_Post d))) db) eqn:E; [discriminate|].
  intros [= <- <-]. repeat split.
  intros H. apply has_id_exists in H. congruence.
Qed.

Lemma check_required_nil (path : string) (v : option string) :
  check_required path v = [] <-> exists s, v = Some s /\ s <> EmptyString.
Proof.
  unfold check_required. destruct v as [s|].
  - destruct s; simpl; split; try discriminate.
    + intros (s & [= <-] & N). now elim N.
    + intros _. eexists. split; [reflexivity | discriminate].
    + reflexivity.
  - split; [discriminate|]. intros (s & E & _). discriminate E.
Qed.

Lemma check_maxlength_nil (path : string) (n : nat) (v : option string) :
  check_maxlength path n v = [] <->
  forall s, v = Some s -> (String.length s <= n)%nat.
Proof.
  unfold check_maxlength. destruct v as [s|].
  - destruct (Nat.ltb_spec n (String.length s)); split; try discriminate.
    + intros H'. specialize (H' s eq_refl). lia.
    + intros _ x [= <-]. exact H.
    + reflexivity.
  - split; [|reflexivity]. intros _ s E. discriminate E.
Qed.

Lemma check_cast_nil {A} (path : string) (v : option A) :
  check_cast path v = [] <-> v <> None.
Proof. destruct v; simpl; split; congruence. Qed.

Lemma app_nil_iff {A} (l l' : list A) : l ++ l' = [] <-> l = [] /\ l' = [].
Proof.
  split; [apply app_eq_nil | now intros [-> ->]].
Qed.

Lemma validate_nil (d : Document) :
  validate d = [] <->
  (exists t, doc_title d = Some t /\ t <> EmptyString /\ (String.length t <= 100)%nat) /\
  (exists c, doc_content d = Some c /\ c <> EmptyString) /\
  (exists a, doc_author d = Some a /\ a <> EmptyString) /\
  doc_id d <> None /\ doc_comments d <> None /\ doc_createdAt d <> None.
Proof.
  unfold validate.
  rewrite !app_nil_iff, !check_required_nil, check_maxlength_nil,
    !check_cast_nil.
  split.
  - intros (I & (t & Ht & Nt) & M & C & A & Cm & Cr). repeat split; trivial.
    exists t. auto.
  - intros ((t & Ht & Nt & M) & C & A & I & Cm & Cr). repeat split; trivial.
    + now exists t.
    + intros s E. congruence.
Qed.


Section Creation.

Variable engine : Engine.

Lemma create_post_stores (now : Date) (b : PostBody) (db : Collection) :
  (fst (create_post engine now b db) = db /\
   400 <= status (snd (create_post engine now b db))) \/
  exists p,
    create_post engine now b db =
      (db ++ [p], status_json 201 (CreatedBody p "Post created successfully")) /\
    p = to_Post (new_Post engine (new_ObjectId db) now b) /\
    validate (new_Post engine (new_ObjectId db) now b) = [] /\
    ~ In (_id p) (map _id db).
Proof.
  unfold create_post.
  destruct (save _ db) as [e|[db' p]] eqn:S.
  - left. simpl. split; [reflexivity | lia].
  - right. apply save_stores in S. destruct S as (V & -> & -> & N).
    eexists. repeat split; trivial.
Qed.

Lemma create_post_appends (now : Date) (b : PostBody) (db : Collection) :
  fst (create_post engine now b db) = db \/
  exists p, fst (create_post engine now b db) = db ++ [p] /\
            likes p = Js.num (or_default (body_likes b) 0).
Proof.
  destruct (create_post_stores now b db) as [[E _] | (p & E & -> & _)];
    [now left | right].
  rewrite E. eexists. split; reflexivity.
Qed.


End Creation.




(** ** The likes counter over the life of the service *)

Lemma Forall2_same {A} (R : A -> A -> Prop) (l : list A) :
  (forall x, R x x) -> Forall2 R l l.
Proof. intros H. induction l; constructor; auto. Qed.

Lemma Forall2_weaken {A} (R R' : A -> A -> Prop) (l l' : list A) :
  (forall x y, R x y -> R' x y) -> Forall2 R l l' -> Forall2 R' l l'.
Proof. intros H. induction 1; constructor; auto. Qed.

Lemma Forall2_transfer {A} (R : A -> A -> Prop) (P : A -> Prop) (l l' : list A) :
  (forall x y, R x y -> P x -> P y) ->
  Forall2 R l l' -> Forall P l -> Forall P l'.
Proof.
  intros H. induction 1 as [|x y l l' Hxy _ IH]; intros F; constructor;
    inversion F; subst; eauto.
Qed.

Section Steps.

Variable engine : Engine.

(** What a Like call and a Comment call leave of the collection: the
    collection itself when the path id is no ObjectId, and otherwise the
    result of the update. *)
Lemma like_post_fst (id : string) (db : Collection) :
  fst (like_post engine id db) =
  match cast_ObjectId engine id with
  | Some oid => fst (findByIdAndUpdate oid inc_likes db)
  | None => db
  end.
Proof.
  unfold like_post, Post_findByIdAndUpdate.
  destruct (cast_ObjectId engine id) as [oid|]; [|reflexivity].
  cbn [ret]. now destruct (findByIdAndUpdate oid inc_likes db) as [db' [p|]].
Qed.

Lemma add_comment_fst (now : Date) (id : string) (b : CommentInput)
  (db : Collection) :
  fst (add_comment engine now id b db) =
  match cast_ObjectId engine id with
  | Some oid =>
      fst (findByIdAndUpdate oid
             (push_comment {| text := in_text b; user := in_user b;
                              date := now |}) db)
  | None => db
  end.
Proof.
  unfold add_comment, Post_findByIdAndUpdate, cast_comment.
  cbn [in_text in_user in_date or_default].
  destruct (cast_ObjectId engine id) as [oid|]; [|reflexivity].
  cbn [ret]. now destruct (findByIdAndUpdate oid _ db) as [db' [p|]].
Qed.






End Steps.




(** ** Sequences of calls *)

Lemma run_app (engine : Engine) (t1 t2 : list (Date * Request)) (db : Collection) :
  run engine (t1 ++ t2) db = run engine t2 (run engine t1 db).
Proof.
  revert db. induction t1 as [|[now r] t1 IH]; intros db; simpl; auto.
Qed.




(** X7: comments are appended in the order of the calls: after a
    sequence of Comment calls on an existing post, and nothing else in
    between, the post's comments are the earlier ones followed by one
    entry per call, in call order, and the post is otherwise unchanged. *)
Theorem comments_keep_call_order (engine : Engine) (id : string)
  (oid : ObjectId) (calls : list (Date * CommentInput)) (db : Collection)
  (p : Post) :
  cast_ObjectId engine id = Some oid ->
  findById oid db = Some p ->
  findById oid (run engine (comment_calls id calls) db) =
    Some (set_comments (comments p ++ entries calls) p) /\
  (forall id', id' <> oid ->
     findById id' (run engine (comment_calls id calls) db) = findById id' db).
Proof.
  intros C. revert db p. induction calls as [|[now b] calls IH]; intros db p H.
  - simpl. rewrite app_nil_r. split; [|reflexivity].
    rewrite H. now destruct p.
  - cbn [comment_calls map run handle fst snd].
    rewrite add_comment_fst, C.
    destruct (update_found oid
                (push_comment {| text := in_text b; user := in_user b;
                                 date := now |})
                (fun _ => eq_refl) db p H) as (db' & U & F' & O).
    rewrite U. cbn [fst].
    destruct (IH db' _ F') as [E O']. fold (comment_calls id calls). split.
    + rewrite E. unfold set_comments, push_comment, entries.
      cbn [comments map fst snd _id title content author tags likes
           published createdAt].
      now rewrite <- app_assoc.
    + intros id' N. rewrite (O' id' N). now apply O.
Qed.

Lemma comments_keep_call_order_witness :
  let p := example_post 1%N "a" "b" 2 [] in
  let a := {| in_text := Some "a"; in_user := None; in_date := None |} in
  let b := {| in_text := Some "b"; in_user := None; in_date := None |} in
  findById 1%N (run strict_engine (comment_calls id_1 [(5, a); (6, b)]) [p]) =
    Some (set_comments (comments p ++ entries [(5, a); (6, b)]) p) /\
  (forall id', id' <> 1%N ->
     findById id' (run strict_engine (comment_calls id_1 [(5, a); (6, b)]) [p])
     = findById id' [p]).
Proof.
  intros p a b.
  apply (comments_keep_call_order strict_engine id_1 1%N
           [(5, a); (6, b)] [p] p); reflexivity.
Defined.

(** ** What the service never does *)

Lemma post_grows_refl (p : Post) : post_grows p p.
Proof.
  unfold post_grows. repeat split; try lia.
  exists []. now rewrite app_nil_r.
Qed.

Lemma post_grows_trans (p q r : Post) :
  post_grows p q -> post_grows q r -> post_grows p r.
Proof.
  unfold post_grows.
  intros (a1 & a2 & a3 & a4 & a5 & a6 & a7 & a8 & cs & a9)
         (b1 & b2 & b3 & b4 & b5 & b6 & b7 & b8 & ds & b9).
  repeat split; try congruence; try lia.
  exists (cs ++ ds). now rewrite b9, a9, app_assoc.
Qed.

Lemma Forall2_trans {A} (R : A -> A -> Prop) (l1 l2 l3 : list A) :
  (forall x y z, R x y -> R y z -> R x z) ->
  Forall2 R l1 l2 -> Forall2 R l2 l3 -> Forall2 R l1 l3.
Proof.
  intros T F. revert l3.
  induction F as [|x y l1 l2 Hxy F IH]; intros l3 G;
    inversion G; subst; constructor; eauto.
Qed.

Lemma collection_grows_refl (db : Collection) : collection_grows db db.
Proof.
  exists db, []. split; [now rewrite app_nil_r|].
  apply Forall2_same, post_grows_refl.
Qed.

Lemma collection_grows_trans (a b c : Collection) :
  collection_grows a b -> collection_grows b c -> collection_grows a c.
Proof.
  intros (k1 & e1 & -> & F1) (k2 & e2 & -> & F2).
  apply Forall2_app_inv_l in F2. destruct F2 as (k & e & Fk & Fe & ->).
  exists k, (e ++ e2). split; [now rewrite app_assoc|].
  apply Forall2_trans with (2 := F1) (3 := Fk). apply post_grows_trans.
Qed.

Lemma update_grows (id : ObjectId) (update : Post -> Post) (db : Collection) :
  (forall p, post_grows p (update p)) ->
  collection_grows db (fst (findByIdAndUpdate id update db)).
Proof.
  intros H. exists (fst (findByIdAndUpdate id update db)), [].
  split; [now rewrite app_nil_r|].
  apply Forall2_weaken with (2 := update_pointwise id update db).
  intros p p' [->|[_ ->]]; [apply post_grows_refl | apply H].
Qed.

Lemma handle_grows (engine : Engine) (now : Date) (r : Request) (db : Collection) :
  collection_grows db (fst (handle engine now r db)).
Proof.
  destruct r as [b|q|id|id b|q|]; cbn [handle fst];
    try apply collection_grows_refl.
  - destruct (create_post_appends engine now b db) as [-> | (p & -> & _)].
    + apply collection_grows_refl.
    + exists db, [p]. split; [reflexivity|].
      apply Forall2_same, post_grows_refl.
  - rewrite like_post_fst.
    destruct (cast_ObjectId engine id); [|apply collection_grows_refl].
    apply update_grows.
    intros p. unfold post_grows. cbn [inc_likes _id title content author tags
      published createdAt likes comments]. repeat split.
    + apply add_not_less. lia.
    + exists []. now rewrite app_nil_r.
  - rewrite add_comment_fst.
    destruct (cast_ObjectId engine id); [|apply collection_grows_refl].
    apply update_grows.
    intros p. unfold post_grows. simpl. repeat split; try lia.
    eexists. reflexivity.
Qed.

(** X8: nothing is ever deleted or rewritten: after any sequence of
    requests the collection holds the posts it held before, in the same
    places, each with the same id, title, content, author, tags,
    published flag and creation time, with likes at least as high and
    with its earlier comments as a prefix of its comments, followed by
    the posts created since. *)
Theorem collection_only_grows (engine : Engine) (trace : list (Date * Request))
  (db : Collection) :
  collection_grows db (run engine trace db) /\
  (List.length db <= List.length (run engine trace db))%nat.
Proof.
  assert (G : collection_grows db (run engine trace db)).
  { revert db. induction trace as [|[now r] trace IH]; intros db; simpl.
    - apply collection_grows_refl.
    - apply collection_grows_trans with (2 := IH _). apply handle_grows. }
  split; [exact G|].
  destruct G as (kept & added & -> & F).
  rewrite length_app, (Forall2_length F). lia.
Qed.

(** X9: a request that is answered with an error status (400 or above)
    leaves the collection exactly as it was. *)
Theorem failure_changes_nothing (engine : Engine) (now : Date) (r : Request)
  (db : Collection) :
  400 <= status (snd (handle engine now r db)) ->
  fst (handle engine now r db) = db.
Proof.
  destruct r as [b|q|id|id b|q|]; cbn [handle fst snd]; trivial.
  - unfold create_post. destruct (save _ db) as [e|[db' p]]; simpl; [trivial|].
    lia.
  - intros H. rewrite like_post_fst.
    destruct (cast_ObjectId engine id) as [oid|] eqn:C; [|reflexivity].
    apply update_none_same.
    rewrite (like_post_cast engine id oid db C) in H.
    destruct (findByIdAndUpdate oid inc_likes db) as [db' [p|]]; simpl in *;
      [lia | reflexivity].
  - intros H. rewrite add_comment_fst.
    destruct (cast_ObjectId engine id) as [oid|] eqn:C; [|reflexivity].
    apply update_none_same.
    destruct (findById oid db) as [p|] eqn:Fd.
    + destruct (add_comment_found engine now id oid b db p C Fd)
        as (db' & A & _).
      rewrite A in H. simpl in H. lia.
    + now rewrite (update_missing oid _ db Fd).
Qed.

Lemma failure_changes_nothing_witness :
  let db := [example_post 1%N "a" "b" 2 []] in
  let b := {| in_text := Some "hi"; in_user := None; in_date := None |} in
  fst (handle strict_engine 3 (AddComment id_7 b) db) = db.
Proof.
  intros db b.
  apply (failure_changes_nothing strict_engine 3 (AddComment id_7 b) db).
  simpl. lia.
Defined.

(** ** Stored posts meet the schema *)

Lemma rev_string_involutive (s : string) : Js.rev_string (Js.rev_string s) = s.
Proof.
  unfold Js.rev_string.
  now rewrite list_ascii_of_string_of_list_ascii, rev_involutive,
    string_of_list_ascii_of_string.
Qed.

Lemma trim_start_not_white (s : string) : starts_white (Js.trim_start s) = false.
Proof.
  induction s as [|c s IH]; simpl; [reflexivity|].
  destruct (Js.is_white c) eqn:E; [exact IH | simpl; exact E].
Qed.

Lemma trim_start_keeps_last (l : list ascii) (c : ascii) :
  Js.is_white c = false ->
  exists l', Js.trim_start (string_of_list_ascii (l ++ [c])) =
             string_of_list_ascii (l' ++ [c]).
Proof.
  intros H. induction l as [|x l IH]; simpl.
  - exists []. simpl. now rewrite H.
  - destruct (Js.is_white x); [exact IH|]. now exists (x :: l).
Qed.

Lemma trim_end_not_white (s : string) :
  starts_white s = false -> starts_white (Js.trim_end s) = false.
Proof.
  destruct s as [|c s]; [reflexivity|]. simpl. intros H.
  unfold Js.trim_end, Js.rev_string at 2. cbn [list_ascii_of_string rev].
  destruct (trim_start_keeps_last (rev (list_ascii_of_string s)) c H)
    as [l' ->].
  unfold Js.rev_string.
  rewrite list_ascii_of_string_of_list_ascii, rev_app_distr. simpl. exact H.
Qed.

Lemma trim_is_trimmed (s : string) :
  starts_white (Js.trim s) = false /\ ends_white (Js.trim s) = false.
Proof.
  unfold Js.trim. split.
  - apply trim_end_not_white, trim_start_not_white.
  - unfold ends_white, Js.trim_end. rewrite rev_string_involutive.
    apply trim_start_not_white.
Qed.

Lemma created_schema_valid (engine : Engine) (id : ObjectId) (now : Date)
  (b : PostBody) :
  validate (new_Post engine id now b) = [] ->
  schema_valid (to_Post (new_Post engine id now b)).
Proof.
  intros V. apply validate_nil in V.
  destruct V as ((t & Ht & Nt & M) & (c & Hc & Nc) & (a & Ha & Na) & _).
  unfold schema_valid, to_Post.
  cbn [title content author]. rewrite Ht, Hc, Ha. cbn [or_default].
  cbn [new_Post doc_title] in Ht.
  destruct (body_title b) as [t0|]; [|discriminate Ht].
  injection Ht as <-.
  destruct (trim_is_trimmed t0). repeat split; trivial.
Qed.

Lemma handle_keeps_schema (engine : Engine) (now : Date) (r : Request)
  (db : Collection) :
  Forall schema_valid db -> Forall schema_valid (fst (handle engine now r db)).
Proof.
  intros F.
  assert (upd : forall id u,
            (forall p, title (u p) = title p /\ content (u p) = content p /\
                       author (u p) = author p) ->
            Forall schema_valid (fst (findByIdAndUpdate id u db))).
  { intros id u H.
    apply Forall2_transfer with (2 := update_pointwise id u db); trivial.
    intros x y [->|[_ ->]] Hx; trivial.
    destruct (H x) as (E1 & E2 & E3). unfold schema_valid.
    now rewrite E1, E2, E3. }
  destruct r as [b|q|id|id b|q|]; cbn [handle fst]; trivial.
  - destruct (create_post_stores engine now b db)
      as [[-> _] | (p & -> & -> & V & _)]; trivial.
    apply Forall_app. split; [exact F|].
    constructor; [now apply created_schema_valid | constructor].
  - rewrite like_post_fst. destruct (cast_ObjectId engine id); trivial.
    apply upd. now intros p.
  - rewrite add_comment_fst. destruct (cast_ObjectId engine id); trivial.
    apply upd. now intros p.
Qed.

(** X10: every post the service stores meets the schema: in every state
    reached from the empty collection, each post has a title that is not
    empty, has at most 100 characters and neither begins nor ends with
    white space, and a content and an author that are not empty. *)
Theorem stored_posts_meet_schema (engine : Engine)
  (trace : list (Date * Request)) :
  Forall schema_valid (run engine trace []).
Proof.
  assert (G : forall db, Forall schema_valid db ->
                         Forall schema_valid (run engine trace db)).
  { induction trace as [|[now r] trace IH]; intros db F; simpl; trivial.
    apply IH. now apply handle_keeps_schema. }
  apply G. constructor.
Qed.

(** ** Creation and lookup *)





(** ** Statistics after a change *)








(** ** The [publish] method *)

(** X16: [publish] on a new document succeeds exactly when saving the
    document would, with the same validation failures otherwise, and
    stores the same post except that it is published, whatever the
    create body said about [published]. *)
Theorem publish_stores_published (engine : Engine) (id : ObjectId)
  (now : Date) (b : PostBody) (db : Collection) :
  match save (new_Post engine id now b) db with
  | inl e => publish (new_Post engine id now b) db = inl e
  | inr (_, p) =>
      exists p',
        publish (new_Post engine id now b) db = inr (db ++ [p'], p') /\
        published p' = true /\
        _id p' = _id p /\ title p' = title p /\ content p' = content p /\
        author p' = author p /\ tags p' = tags p /\ likes p' = likes p /\
        comments p' = comments p /\ createdAt p' = createdAt p
  end.
Proof.
  unfold publish, save, validate.
  cbn [doc_id doc_title doc_content doc_author doc_comments doc_createdAt].
  destruct (check_cast "_id" _ ++ _) eqn:V; [|reflexivity].
  unfold to_Post at 1 3. cbn [_id doc_id].
  destruct (existsb _ db); [reflexivity|].
  eexists. split; [reflexivity|]. repeat split.
Qed.
